(** * Book catalog service (src/index.js): model and verified properties

    The service keeps one in-memory array [books] of plain JavaScript
    objects and exposes six Express routes over it.  The development
    below embeds

    - the JavaScript values that can flow through the handlers (JSON
      request bodies, URL parameters, the records themselves),
    - the language primitives the handlers rely on ([!x], [===],
      [parseInt], [Number.prototype.toString], object spread),
    - the two helper functions and the six route handlers,

    and then proves the properties of the catalog.

    Modelling conventions.
    - A JavaScript object is a finite map from property names to values
      ([gmap string value]); reading a missing property gives
      [VUndefined].  Property enumeration order is not observable by any
      handler, so it is not modelled.
    - A JavaScript array is a [list]; [books\[i\] = x] is [<[i:=x]> books].
    - Numbers are IEEE-754 doubles with an integer value, NaN and the
      two infinities: what [parseInt(..) + 1] can produce.  An integer is
      rounded to the nearest double, ties to even, where the code
      converts or adds, and printed the way [Number.prototype.toString]
      prints a double.  [VNum n] is the number written [n] in the JSON
      text; JSON numbers with a fractional part are outside the model.
    - Strings are sequences of 8-bit code units (Latin-1).
    - The request body is the object produced by [bodyParser.json()].
      An array body [\[a, b\]] behaves in every handler like the object
      with keys "0", "1", so bodies are modelled as objects. *)

From Stdlib Require Import Ascii.
From stdpp Require Import base strings list sorting gmap pretty.

#[local] Set Warnings "-register-all,-clear-no-such-hyp".
#[local] Open Scope Z_scope.

(** ** JavaScript values and primitives *)

Module Js.

Inductive value : Type :=
  | VUndefined
  | VNull
  | VBool (b : bool)
  | VNum (n : Z)
  | VStr (s : string)
  | VArr (elems : list value)
  | VObj (props : gmap string value).

(** A plain object: own enumerable data properties only. *)
Abbreviation object := (gmap string value).

(** [o.k] for a property name [k] that [Object.prototype] does not define. *)
Definition get (o : object) (k : string) : value :=
  default VUndefined (o !! k).

(** [ToBoolean]: the falsy values are undefined, null, false, 0 and "". *)
Definition ToBoolean (v : value) : bool :=
  match v with
  | VUndefined | VNull => false
  | VBool b => b
  | VNum n => negb (n =? 0)
  | VStr s => negb (bool_decide (s = ""))
  | VArr _ | VObj _ => true
  end.

(** [v === s] where the right operand is a string (a URL parameter). *)
Definition strict_equals_string (v : value) (s : string) : bool :=
  match v with
  | VStr t => bool_decide (t = s)
  | _ => false
  end.

(** The result of [parseInt] and of the addition that follows it: NaN,
    an infinity, or a double whose value is the integer [z]. *)
Inductive number : Type :=
  | NaN
  | Infinity (negative : bool)
  | Int (z : Z).

(** The double nearest to the integer [z], ties going to the even
    significand of 53 bits; every integer up to 2^53 in magnitude is a
    double, and from 2^1024 - 2^970 on the result is an infinity. *)
Definition round_double (z : Z) : number :=
  let a := Z.abs z in
  if a <=? 2 ^ 53 then Int z
  else
    let e := Z.log2 a - 52 in
    let q := a / 2 ^ e in
    let r := a mod 2 ^ e in
    let half := 2 ^ (e - 1) in
    let q' := if r <? half then q
              else if half <? r then q + 1
              else if Z.even q then q else q + 1 in
    let m := q' * 2 ^ e in
    if 2 ^ 1024 <=? m then Infinity (z <? 0) else Int (Z.sgn z * m).

(** [a + b] on doubles: the exact sum, rounded. *)
Definition number_add (a b : number) : number :=
  match a, b with
  | NaN, _ | _, NaN => NaN
  | Int x, Int y => round_double (x + y)
  | Infinity s, Int _ | Int _, Infinity s => Infinity s
  | Infinity s, Infinity t => if bool_decide (s = t) then Infinity s else NaN
  end.

(** The number of decimal digits of a positive integer. *)
Definition decimal_length (x : Z) : Z := Z.of_nat (String.length (pretty x)).

(** The integer with [k] significant digits that rounds to the double
    [x], if there is one; of two, the one closer to [x], then the one
    with the even last digit. *)
Definition shortest_with (x k : Z) : option Z :=
  let unit := 10 ^ (decimal_length x - k) in
  let lo := x / unit * unit in
  let hi := lo + unit in
  let ok v := match round_double v with Int y => y =? x | _ => false end in
  match ok lo, ok hi with
  | true, true =>
      if x - lo <? hi - x then Some lo
      else if hi - x <? x - lo then Some hi
      else if Z.even (lo / unit) then Some lo else Some hi
  | true, false => Some lo
  | false, true => Some hi
  | false, false => None
  end.

Fixpoint shortest_from (x k : Z) (fuel : nat) : Z :=
  match fuel with
  | O => x
  | S fuel' =>
      match shortest_with x k with
      | Some v => v
      | None => shortest_from x (k + 1) fuel'
      end
  end.

(** The integer with the fewest significant digits that still denotes the
    double [x]; seventeen digits always suffice. *)
Definition shortest (x : Z) : Z := shortest_from x 1 17.

Fixpoint strip_zeros (v : Z) (fuel : nat) : Z :=
  match fuel with
  | O => v
  | S fuel' =>
      if (v mod 10 =? 0) && negb (v =? 0) then strip_zeros (v / 10) fuel'
      else v
  end.

(** How a double above 2^53 is printed: its shortest digits, padded with
    zeros up to 21 digits and in exponent form beyond. *)
Definition large_toString (x : Z) : string :=
  let v := shortest x in
  let n := decimal_length v in
  if n <=? 21 then pretty v
  else
    let digits := pretty (strip_zeros v (Z.to_nat n)) in
    let exponent := "e+" +:+ pretty (n - 1) in
    match digits with
    | String d EmptyString => String d exponent
    | String d rest => String d ("." +:+ rest +:+ exponent)
    | EmptyString => exponent
    end.

(** [Number.prototype.toString.call(n)] in radix 10. *)
Definition Number_toString (n : number) : string :=
  match n with
  | NaN => "NaN"
  | Infinity false => "Infinity"
  | Infinity true => "-Infinity"
  | Int z =>
      if Z.abs z <=? 2 ^ 53 then pretty z
      else if z <? 0 then "-" +:+ large_toString (- z)
      else large_toString z
  end.

(** [ToString].  [None] stands for a thrown TypeError: an own property
    named "toString" shadows [Object.prototype.toString] with a JSON
    value, which is not callable, and then no method tried by
    [OrdinaryToPrimitive] yields a primitive.  Otherwise the inherited
    method answers "[object Object]".
    An array is converted by [Array.prototype.join]: the elements are
    separated by "," and undefined and null elements give the empty
    string. *)
Fixpoint ToString (v : value) : option string :=
  match v with
  | VUndefined => Some "undefined"
  | VNull => Some "null"
  | VBool true => Some "true"
  | VBool false => Some "false"
  | VNum n => Some (Number_toString (round_double n))
  | VStr s => Some s
  | VArr elems =>
      let element (e : value) : option string :=
        match e with
        | VUndefined | VNull => Some ""
        | _ => ToString e
        end in
      (fix join (l : list value) : option string :=
         match l with
         | [] => Some ""
         | [e] => element e
         | e :: rest =>
             match element e, join rest with
             | Some s, Some r => Some (s +:+ "," +:+ r)
             | _, _ => None
             end
         end) elems
  | VObj props =>
      match props !! "toString" with
      | Some _ => None
      | None => Some "[object Object]"
      end
  end.

(** *** [parseInt(string)] with the radix argument omitted *)

(** White space and line terminators among the 8-bit code units:
    TAB, LF, VT, FF, CR, SP and NBSP. *)
Definition is_white_space (c : ascii) : bool :=
  let n := N_of_ascii c in
  ((9 <=? n) && (n <=? 13) || (n =? 32) || (n =? 160))%N.

Fixpoint trim_start (s : string) : string :=
  match s with
  | String c rest => if is_white_space c then trim_start rest else s
  | EmptyString => EmptyString
  end.

(** The value of a character as a digit, letters counting from 10. *)
Definition digit_value (c : ascii) : option N :=
  let n := N_of_ascii c in
  if ((48 <=? n) && (n <=? 57))%N then Some (n - 48)%N
  else if ((97 <=? n) && (n <=? 122))%N then Some (n - 87)%N
  else if ((65 <=? n) && (n <=? 90))%N then Some (n - 55)%N
  else None.

(** The integer denoted by the longest prefix of [s] made of radix-[R]
    digits; [acc] is [None] until a first digit has been read. *)
Fixpoint digits_prefix (R : N) (s : string) (acc : option N) : option N :=
  match s with
  | String c rest =>
      match digit_value c with
      | Some d =>
          if (d <? R)%N
          then digits_prefix R rest (Some (default 0 acc * R + d)%N)
          else acc
      | None => acc
      end
  | EmptyString => acc
  end.

(** [parseInt] on a string: white space, sign, an optional 0x, then the
    digits; the integer they denote is converted to the nearest double,
    as engines do. *)
Definition parseInt_string (input : string) : number :=
  let trimmed := trim_start input in
  let '(sign, unsigned) :=
    match trimmed with
    | String "-"%char rest => (-1, rest)
    | String "+"%char rest => (1, rest)
    | _ => (1, trimmed)
    end in
  let '(R, digits) :=
    match unsigned with
    | String "0"%char (String "x"%char rest)
    | String "0"%char (String "X"%char rest) => (16%N, rest)
    | _ => (10%N, unsigned)
    end in
  match digits_prefix R digits None with
  | None => NaN
  | Some m => round_double (sign * Z.of_N m)
  end.

(** [parseInt(v)]: the argument is converted with [ToString] first. *)
Definition parseInt (v : value) : option number :=
  parseInt_string <$> ToString v.

End Js.

Import Js.

(** ** The catalog: state, helpers and route handlers *)

Module Catalog.

(** A book record is a plain object; the collection is an array of them. *)
Abbreviation book := (gmap string value).

(** The initial contents of [books]. *)
Definition seed : list book :=
  [ {[ "id" := VStr "1"; "title" := VStr "The Lord of the Rings";
       "author" := VStr "J.R.R. Tolkien"; "year" := VNum 1954 ]};
    {[ "id" := VStr "2"; "title" := VStr "Pride and Prejudice";
       "author" := VStr "Jane Austen"; "year" := VNum 1813 ]} ].

(** The JSON document passed to [res.json]; [data] is absent on failures
    and on a successful delete. *)
Inductive payload : Type :=
  | DataBook (b : book)
  | DataBooks (bs : list book).

Record envelope : Type := Envelope {
  status : string;
  message : string;
  data : option payload
}.

(** What the client receives: [res.status(code).json(body)], or the 500
    answer of Express when the handler throws. *)
Inductive response : Type :=
  | Reply (code : nat) (body : envelope)
  | Uncaught.

Definition success (msg : string) (d : option payload) : envelope :=
  {| status := "success"; message := msg; data := d |}.

Definition fail (msg : string) : envelope :=
  {| status := "fail"; message := msg; data := None |}.

(** The 404 answer shared by the four routes that take an id. *)
Definition not_found (id : string) : response :=
  Reply 404 (fail ("Book with id " +:+ id +:+ " not found")).

(** The 400 answers of POST and PUT. *)
Definition bad_create : response :=
  Reply 400 (fail "Title, author, and year are required").

Definition bad_update : response :=
  Reply 400 (fail "Title, author, and year are required for a complete update").

(** The callback [book => book.id === id] shared by [find], [findIndex]
    and (negated) [filter]. *)
Definition id_matches (id : string) (b : book) : bool :=
  strict_equals_string (get b "id") id.

(** [books.find(book => book.id === id)]; [None] is [undefined]. *)
Definition findBookById (books : list book) (id : string) : option book :=
  snd <$> list_find (id_matches id) books.

(** [books.findIndex(book => book.id === id)]; [None] is [-1]. *)
Definition findIndex (books : list book) (id : string) : option nat :=
  fst <$> list_find (id_matches id) books.

(** [generateNewId()]; [None] when the evaluation throws. *)
Definition generateNewId (books : list book) : option string :=
  if bool_decide (length books = 0%nat) then Some "1"
  else
    last ← books !! (length books - 1)%nat;
    n ← parseInt (get last "id");
    Some (Number_toString (number_add n (Int 1))).

(** [!title || !author || !year] *)
Definition missing_field (body : object) : bool :=
  negb (ToBoolean (get body "title"))
  || negb (ToBoolean (get body "author"))
  || negb (ToBoolean (get body "year")).

(** [{ ...old, title, author, year }] *)
Definition full_update (old : book) (body : object) : book :=
  <["year" := get body "year"]>
    (<["author" := get body "author"]>
       (<["title" := get body "title"]> old)).

(** [{ ...old, ...updates }]: properties of [updates] win. *)
Definition spread_merge (old : book) (updates : object) : book :=
  updates ∪ old.

(** [{ id: generateNewId(), title, author, year }] *)
Definition newBook (new_id : string) (body : object) : book :=
  {[ "id" := VStr new_id; "title" := get body "title";
     "author" := get body "author"; "year" := get body "year" ]}.

(** GET /books *)
Definition get_books (books : list book) : list book * response :=
  if bool_decide (0 < length books)%nat then
    (books, Reply 200 (success "Successfully retrieved all books"
                               (Some (DataBooks books))))
  else
    (books, Reply 404 (fail "No books found")).

(** GET /books/:id *)
Definition get_book (books : list book) (id : string) : list book * response :=
  match findBookById books id with
  | Some b =>
      (books, Reply 200 (success ("Successfully retrieved book with id " +:+ id)
                                 (Some (DataBook b))))
  | None => (books, not_found id)
  end.

(** POST /books *)
Definition post_book (books : list book) (body : object) : list book * response :=
  if missing_field body then
    (books, bad_create)
  else
    match generateNewId books with
    | None => (books, Uncaught)
    | Some new_id =>
        let book := newBook new_id body in
        (books ++ [book],
         Reply 201 (success "Book added successfully" (Some (DataBook book))))
    end.

(** PUT /books/:id *)
Definition put_book (books : list book) (id : string) (body : object)
  : list book * response :=
  match list_find (id_matches id) books with
  | Some (bookIndex, old) =>
      if missing_field body then
        (books, bad_update)
      else
        let books' := <[bookIndex := full_update old body]> books in
        (books',
         Reply 200 (success ("Book with id " +:+ id +:+ " updated successfully (full update)")
                            (DataBook <$> books' !! bookIndex)))
  | None => (books, not_found id)
  end.

(** PATCH /books/:id *)
Definition patch_book (books : list book) (id : string) (updates : object)
  : list book * response :=
  match list_find (id_matches id) books with
  | Some (bookIndex, old) =>
      let books' := <[bookIndex := spread_merge old updates]> books in
      (books',
       Reply 200 (success ("Book with id " +:+ id +:+ " updated successfully (partial update)")
                          (DataBook <$> books' !! bookIndex)))
  | None => (books, not_found id)
  end.

(** DELETE /books/:id *)
Definition delete_book (books : list book) (id : string) : list book * response :=
  let initialLength := length books in
  let books' := filter (λ b, ¬ id_matches id b) books in
  if bool_decide (length books' < initialLength)%nat then
    (books', Reply 200 (success ("Book with id " +:+ id +:+ " deleted successfully") None))
  else
    (books', not_found id).

(** The six operations of the service. *)
Inductive request : Type :=
  | GetBooks
  | GetBook (id : string)
  | PostBook (body : object)
  | PutBook (id : string) (body : object)
  | PatchBook (id : string) (updates : object)
  | DeleteBook (id : string).

Definition handle (books : list book) (req : request) : list book * response :=
  match req with
  | GetBooks => get_books books
  | GetBook id => get_book books id
  | PostBook body => post_book books body
  | PutBook id body => put_book books id body
  | PatchBook id updates => patch_book books id updates
  | DeleteBook id => delete_book books id
  end.

(** Running a sequence of requests, oldest first. *)
Definition run (books : list book) (reqs : list request) : list book :=
  foldl (λ bs req, (handle bs req).1) books reqs.

(** The states the live collection can be in. *)
Inductive reachable : list book → Prop :=
  | reachable_seed : reachable seed
  | reachable_step books req :
      reachable books → reachable (handle books req).1.

(** A request that cannot change the [id] of the record it addresses: a
    partial update qualifies when its body carries no "id" or repeats the
    id of the route. *)
Definition keeps_id (req : request) : bool :=
  match req with
  | PatchBook id updates =>
      match updates !! "id" with
      | None => true
      | Some v => strict_equals_string v id
      end
  | _ => true
  end.

(** The states reachable through such requests only. *)
Inductive reachable_keeping_ids : list book → Prop :=
  | rk_seed : reachable_keeping_ids seed
  | rk_step books req :
      reachable_keeping_ids books → keeps_id req = true →
      reachable_keeping_ids (handle books req).1.

(** The response carries the failure envelope. *)
Definition is_failure (r : response) : Prop :=
  match r with
  | Reply _ body => status body = "fail"
  | Uncaught => False
  end.

Definition ids (books : list book) : list value :=
  (λ b, get b "id") <$> books.

(** Pairwise distinct ids. *)
Definition unique_ids (books : list book) : Prop := NoDup (ids books).

(** The id that [generateNewId] produces from the number [n]. *)
Definition numeral (n : Z) : value := VStr (pretty n).

(** Where the counter of [generateNewId] stops: 2^53 + 1 is not a double
    and rounds back to 2^53. *)
Definition counter_limit : Z := 2 ^ 53.

(** The order in which the counter hands out numbers: upwards, except
    that [counter_limit] can follow itself. *)
Definition id_order (m n : Z) : Prop :=
  m < n ∨ (m = n ∧ n = counter_limit).

(** The ids of [books] are the numerals of [ns], positive integers up to
    [counter_limit] in the order of the counter: strictly increasing
    below [counter_limit]. *)
Definition numbered (books : list book) (ns : list Z) : Prop :=
  ids books = numeral <$> ns
  ∧ Forall (λ n, 0 < n ≤ counter_limit) ns
  ∧ StronglySorted id_order ns.

End Catalog.

Import Catalog.

(** ** Request bodies and states used in the worked scenarios *)

Module Scenario.

Definition dune : object :=
  {[ "title" := VStr "Dune"; "author" := VStr "Herbert"; "year" := VNum 1965 ]}.

Definition xy : object :=
  {[ "title" := VStr "X"; "author" := VStr "Y"; "year" := VNum 1 ]}.

(** A create that leaves out the year. *)
Definition no_year : object :=
  {[ "title" := VStr "Dune"; "author" := VStr "Herbert" ]}.

(** Partial updates that add a field, move an id onto an existing one,
    and move the last id below an existing one. *)
Definition add_genre : object := {[ "genre" := VStr "fantasy" ]}.
Definition id_to_1 : object := {[ "id" := VStr "1" ]}.
Definition id_to_0 : object := {[ "id" := VStr "0" ]}.

(** A partial update that moves an id to 2^53. *)
Definition id_to_limit : object := {[ "id" := VStr "9007199254740992" ]}.

(** The seed collection after PATCH /books/1 with [add_genre]. *)
Definition with_genre : list book := run seed [PatchBook "1" add_genre].

(** The first record of [with_genre] after PUT /books/1 with [dune]. *)
Definition dune_with_genre : book :=
  {[ "id" := VStr "1"; "title" := VStr "Dune"; "author" := VStr "Herbert";
     "year" := VNum 1965; "genre" := VStr "fantasy" ]}.

End Scenario.

Import Scenario.

(** ** Vocabulary for the properties of the routes taken together *)

Module Routes.

(** The values that [!v] rejects. *)
Definition falsy (v : value) : Prop :=
  v = VUndefined ∨ v = VNull ∨ v = VBool false ∨ v = VNum 0 ∨ v = VStr "".

(** The fields that POST and PUT insist on. *)
Definition required_fields : list string := ["title"; "author"; "year"].

(** The fields of a record made by POST. *)
Definition base_fields : gset string := {[ "id"; "title"; "author"; "year" ]}.

(** The id in the path of a request, for the four routes /books/:id. *)
Definition addressed_id (req : request) : option string :=
  match req with
  | GetBooks | PostBook _ => None
  | GetBook id | PutBook id _ | PatchBook id _ | DeleteBook id => Some id
  end.

(** The 200 answer of DELETE. *)
Definition deleted (id : string) : response :=
  Reply 200 (success ("Book with id " +:+ id +:+ " deleted successfully") None).

(** The 200 answer of GET /books/:id. *)
Definition retrieved (id : string) (b : book) : response :=
  Reply 200 (success ("Successfully retrieved book with id " +:+ id)
                     (Some (DataBook b))).

(** The 201 answer of POST. *)
Definition created (b : book) : response :=
  Reply 201 (success "Book added successfully" (Some (DataBook b))).

(** The largest of a list of numbers, 0 for the empty list. *)
Definition max_id (ns : list Z) : Z := foldr Z.max 0 ns.

End Routes.

Import Routes.

(** ** Decimal numerals: [parseInt] inverts [Number.prototype.toString] *)

Section decimal.

Lemma digit_cases (d : N) :
  (d < 10)%N →
  (d = 0 ∨ d = 1 ∨ d = 2 ∨ d = 3 ∨ d = 4 ∨ d = 5 ∨ d = 6 ∨ d = 7 ∨ d = 8 ∨ d = 9)%N.
Proof. lia. Qed.

Ltac each_digit H :=
  destruct H as [->|[->|[->|[->|[->|[->|[->|[->|[->| ->]]]]]]]]].

Lemma digit_value_pretty (d : N) :
  (d < 10)%N → digit_value (pretty_N_char d) = Some d.
Proof. intros Hd%digit_cases. each_digit Hd; reflexivity. Qed.

Lemma div_mod_10 (x : N) :
  (x = x `div` 10 * 10 + x `mod` 10 ∧ x `mod` 10 < 10)%N.
Proof.
  split; [|apply N.mod_lt; lia].
  rewrite (N.mul_comm _ 10). apply N.div_mod. lia.
Qed.

Lemma digits_prefix_pretty_go (x : N) (s : string) :
  (0 < x)%N →
  digits_prefix 10 (pretty_N_go x s) None = digits_prefix 10 s (Some x).
Proof.
  revert s. induction (N.lt_wf_0 x) as [x _ IH]; intros s Hx.
  rewrite pretty_N_go_step by done.
  destruct (div_mod_10 x) as [Hdm Hmod].
  destruct (decide (x `div` 10 = 0)%N) as [Hq|Hq].
  - rewrite Hq, pretty_N_go_0. simpl.
    rewrite digit_value_pretty by done.
    destruct (N.ltb_spec (x `mod` 10) 10); [|lia].
    f_equal. f_equal. lia.
  - rewrite IH; [|apply N.div_lt; lia|lia]. simpl.
    rewrite digit_value_pretty by done.
    destruct (N.ltb_spec (x `mod` 10) 10); [|lia].
    f_equal. f_equal. lia.
Qed.

Lemma pretty_go_leading_digit (x : N) (s : string) :
  (0 < x)%N →
  ∃ d rest, (0 < d < 10)%N ∧ pretty_N_go x s = String (pretty_N_char d) rest.
Proof.
  revert s. induction (N.lt_wf_0 x) as [x _ IH]; intros s Hx.
  rewrite pretty_N_go_step by done.
  destruct (div_mod_10 x) as [Hdm Hmod].
  destruct (decide (x `div` 10 = 0)%N) as [Hq|Hq].
  - rewrite Hq, pretty_N_go_0. exists (x `mod` 10)%N, s. split; [lia|done].
  - apply IH; [apply N.div_lt; lia|lia].
Qed.

(** On a string that starts with a digit from 1 to 9, [parseInt] skips
    nothing and reads in radix 10, with or without a minus sign. *)
Lemma parseInt_string_leading_digit (d : N) (rest : string) :
  (0 < d < 10)%N →
  let s := String (pretty_N_char d) rest in
  parseInt_string s
  = match digits_prefix 10 s None with
    | None => NaN
    | Some m => round_double (1 * Z.of_N m)
    end
  ∧ parseInt_string ("-" +:+ s)
  = match digits_prefix 10 s None with
    | None => NaN
    | Some m => round_double (-1 * Z.of_N m)
    end.
Proof.
  intros [Hpos Hd%digit_cases].
  each_digit Hd; [lia|split; reflexivity..].
Qed.

Lemma parseInt_string_pretty (z : Z) :
  parseInt_string (pretty z) = round_double z.
Proof.
  destruct z as [|p|p]; [reflexivity|..].
  all: unfold pretty, pretty_Z, pretty, pretty_positive, pretty, pretty_N;
    rewrite decide_False by done.
  all: destruct (pretty_go_leading_digit (Npos p) "") as (d & rest & Hd & Heq);
    [lia|].
  all: destruct (parseInt_string_leading_digit d rest Hd) as [Hplus Hminus].
  all: rewrite Heq; first [rewrite Hplus|rewrite Hminus].
  all: rewrite <- Heq, digits_prefix_pretty_go by lia; f_equal; lia.
Qed.

Lemma parseInt_pretty_string (z : Z) :
  parseInt (VStr (pretty z)) = Some (round_double z).
Proof. unfold parseInt. simpl. by rewrite parseInt_string_pretty. Qed.

Lemma counter_limit_value : counter_limit = 9007199254740992.
Proof. reflexivity. Qed.

(** Up to 2^53 in magnitude nothing is rounded and every digit is
    printed. *)
Lemma round_double_exact (z : Z) :
  Z.abs z ≤ counter_limit → round_double z = Int z.
Proof.
  unfold round_double, counter_limit. intros Hz.
  by destruct (Z.leb_spec (Z.abs z) (2 ^ 53)); [|lia].
Qed.

Lemma Number_toString_exact (z : Z) :
  Z.abs z ≤ counter_limit → Number_toString (Int z) = pretty z.
Proof.
  unfold Number_toString, counter_limit. intros Hz.
  by destruct (Z.leb_spec (Z.abs z) (2 ^ 53)); [|lia].
Qed.


End decimal.

(** ** Helper facts about the primitives and the handlers *)

Section helpers.

Implicit Types (books : list book) (b old : book) (body updates : object)
  (id : string).

Lemma strict_equals_string_spec (v : value) id :
  strict_equals_string v id = true ↔ v = VStr id.
Proof.
  destruct v; simpl; try (split; [discriminate|congruence]).
  rewrite bool_decide_eq_true. split; congruence.
Qed.

Lemma id_matches_spec id b : id_matches id b ↔ get b "id" = VStr id.
Proof.
  unfold id_matches. rewrite Is_true_true. apply strict_equals_string_spec.
Qed.

(** What [find] and [findIndex] return on a hit. *)
Lemma list_find_hit books id i old :
  list_find (id_matches id) books = Some (i, old) →
  books !! i = Some old ∧ get old "id" = VStr id ∧ (i < length books)%nat.
Proof.
  intros (Hi & Hm & _)%list_find_Some. split_and!; [done| |].
  - by apply id_matches_spec.
  - by eapply lookup_lt_Some.
Qed.

Lemma list_find_miss books id :
  list_find (id_matches id) books = None ↔ VStr id ∉ ids books.
Proof.
  rewrite list_find_None, Forall_forall. unfold ids.
  rewrite list_elem_of_fmap. setoid_rewrite id_matches_spec.
  split.
  - intros Hall (b & Hb & Hin). by apply (Hall b Hin).
  - intros Hnone b Hin Hb. apply Hnone. eauto.
Qed.

Lemma get_full_update_id old body :
  get (full_update old body) "id" = get old "id".
Proof.
  unfold get, full_update. by rewrite !lookup_insert_ne.
Qed.

Lemma full_update_other old body (k : string) :
  k ≠ "title" → k ≠ "author" → k ≠ "year" →
  full_update old body !! k = old !! k.
Proof.
  intros. unfold full_update. by rewrite !lookup_insert_ne.
Qed.

Lemma spread_merge_empty old : spread_merge old ∅ = old.
Proof. unfold spread_merge. apply (left_id ∅ (∪)). Qed.

Lemma get_spread_merge_id old id updates :
  get old "id" = VStr id → keeps_id (PatchBook id updates) = true →
  get (spread_merge old updates) "id" = VStr id.
Proof.
  unfold get, spread_merge, keeps_id. intros Hold Hkeep.
  rewrite lookup_union. destruct (updates !! "id") as [v|] eqn:Hv.
  - apply strict_equals_string_spec in Hkeep as ->.
    by destruct (old !! "id").
  - by rewrite (left_id None _).
Qed.

Lemma ids_app books1 books2 : ids (books1 ++ books2) = ids books1 ++ ids books2.
Proof. apply fmap_app. Qed.

(** Replacing a record by one with the same id leaves [ids] alone. *)
Lemma ids_insert_same books i old b :
  books !! i = Some old → get b "id" = get old "id" →
  ids (<[i := b]> books) = ids books.
Proof.
  intros Hi Hid. unfold ids. rewrite list_fmap_insert, Hid.
  apply list_insert_id. by rewrite list_lookup_fmap, Hi.
Qed.

Lemma filter_same_length {A} (P : A → Prop) `{!∀ x, Decision (P x)} (l : list A) :
  length (filter P l) = length l → filter P l = l.
Proof.
  induction l as [|x l IH]; [done|]. rewrite filter_cons.
  destruct (decide (P x)); simpl; intros Hlen.
  - f_equal. apply IH. lia.
  - pose proof (length_filter P l). lia.
Qed.

Lemma generateNewId_nil : generateNewId [] = Some "1".
Proof. reflexivity. Qed.

Lemma generateNewId_snoc books b :
  generateNewId (books ++ [b])
  = n ← parseInt (get b "id"); Some (Number_toString (number_add n (Int 1))).
Proof.
  unfold generateNewId. rewrite length_app. simpl.
  rewrite bool_decide_eq_false_2 by lia.
  replace (length books + 1 - 1)%nat with (length books + 0)%nat by lia.
  by rewrite lookup_app_r, Nat.add_0_r, Nat.sub_diag by lia.
Qed.

(** What [(parseInt(id) + 1).toString()] gives on a numeral. *)
Lemma next_numeral (n : Z) :
  - counter_limit ≤ n < counter_limit →
  Number_toString (number_add (round_double n) (Int 1)) = pretty (n + 1).
Proof.
  intros Hn. rewrite round_double_exact by lia. unfold number_add.
  by rewrite round_double_exact, Number_toString_exact by lia.
Qed.

Lemma next_numeral_at_limit :
  Number_toString (number_add (round_double counter_limit) (Int 1))
  = pretty counter_limit.
Proof. by vm_compute. Qed.

Lemma generateNewId_numeral books b (n : Z) :
  get b "id" = VStr (pretty n) → - counter_limit ≤ n < counter_limit →
  generateNewId (books ++ [b]) = Some (pretty (n + 1)).
Proof.
  intros Hid Hn. rewrite generateNewId_snoc, Hid, parseInt_pretty_string.
  change (Some (Number_toString (number_add (round_double n) (Int 1)))
          = Some (pretty (n + 1))).
  by rewrite next_numeral.
Qed.

Lemma generateNewId_at_limit books b :
  get b "id" = VStr (pretty counter_limit) →
  generateNewId (books ++ [b]) = Some (pretty counter_limit).
Proof.
  intros Hid. rewrite generateNewId_snoc, Hid, parseInt_pretty_string.
  change (Some (Number_toString
                  (number_add (round_double counter_limit) (Int 1)))
          = Some (pretty counter_limit)).
  by rewrite next_numeral_at_limit.
Qed.

(** The handlers, case by case. *)

Lemma post_book_missing books body :
  missing_field body = true → post_book books body = (books, bad_create).
Proof. unfold post_book. by intros ->. Qed.

Lemma put_book_miss books id body :
  list_find (id_matches id) books = None →
  put_book books id body = (books, not_found id).
Proof. unfold put_book. by intros ->. Qed.

Lemma put_book_hit books id body i old :
  list_find (id_matches id) books = Some (i, old) →
  put_book books id body
  = if missing_field body then (books, bad_update)
    else (<[i := full_update old body]> books,
          Reply 200 (success ("Book with id " +:+ id +:+ " updated successfully (full update)")
                             (Some (DataBook (full_update old body))))).
Proof.
  intros Hfind. unfold put_book. rewrite Hfind.
  apply list_find_hit in Hfind as (_ & _ & Hlt).
  by rewrite list_lookup_insert_eq.
Qed.

Lemma patch_book_miss books id updates :
  list_find (id_matches id) books = None →
  patch_book books id updates = (books, not_found id).
Proof. unfold patch_book. by intros ->. Qed.

Lemma patch_book_hit books id updates i old :
  list_find (id_matches id) books = Some (i, old) →
  patch_book books id updates
  = (<[i := spread_merge old updates]> books,
     Reply 200 (success ("Book with id " +:+ id +:+ " updated successfully (partial update)")
                        (Some (DataBook (spread_merge old updates))))).
Proof.
  intros Hfind. unfold patch_book. rewrite Hfind.
  apply list_find_hit in Hfind as (_ & _ & Hlt).
  by rewrite list_lookup_insert_eq.
Qed.

Lemma delete_book_state books id :
  (delete_book books id).1 = filter (λ b, ¬ id_matches id b) books.
Proof. unfold delete_book. by case_bool_decide. Qed.

End helpers.

(** ** Create and delete, in any state *)

Section create_delete.

Implicit Types (books : list book) (b old : book) (body updates : object)
  (id : string).

(** [findIndex] and the element at the index it returns. *)
Lemma findIndex_hit books id i old :
  findIndex books id = Some i → books !! i = Some old →
  list_find (id_matches id) books = Some (i, old).
Proof.
  unfold findIndex.
  destruct (list_find _ _) as [[i' old']|] eqn:Hfind; [|done].
  simpl. intros [= ->] Hi.
  apply list_find_Some in Hfind as (Hi' & _). congruence.
Qed.

(** Replacing the found record by one with the same id does not move
    what [findIndex] finds. *)
Lemma list_find_insert_same_id books id i old b :
  list_find (id_matches id) books = Some (i, old) → get b "id" = VStr id →
  list_find (id_matches id) (<[i := b]> books) = Some (i, b).
Proof.
  intros (Hi & _ & Hbefore)%list_find_Some Hb. apply list_find_Some.
  split; [apply list_lookup_insert_eq; by eapply lookup_lt_Some|].
  split; [by apply id_matches_spec|].
  intros j y Hj Hlt. rewrite list_lookup_insert_ne in Hj by lia.
  by eapply Hbefore.
Qed.

Lemma post_book_ok books body new_id :
  missing_field body = false → generateNewId books = Some new_id →
  post_book books body
  = (books ++ [newBook new_id body],
     Reply 201 (success "Book added successfully"
                        (Some (DataBook (newBook new_id body))))).
Proof. unfold post_book. by intros -> ->. Qed.

Lemma get_newBook_id new_id body : get (newBook new_id body) "id" = VStr new_id.
Proof. unfold get, newBook. by rewrite lookup_insert_eq. Qed.

(** No record that survives the filter of DELETE carries the id. *)
Lemma filter_drops_id books id :
  VStr id ∉ ids (filter (λ b, ¬ id_matches id b) books).
Proof.
  unfold ids. rewrite list_elem_of_fmap. intros (b & Hb & Hin).
  apply list_elem_of_filter in Hin as [Hno _]. by apply Hno, id_matches_spec.
Qed.

Lemma filter_absent_id books id :
  VStr id ∉ ids books → filter (λ b, ¬ id_matches id b) books = books.
Proof.
  induction books as [|b books IH]; [done|].
  unfold ids. rewrite fmap_cons, not_elem_of_cons. intros [Hb Hrest].
  rewrite filter_cons, decide_True; [by rewrite IH|].
  rewrite id_matches_spec. congruence.
Qed.

(** With pairwise distinct ids, exactly one record goes. *)
Lemma filter_unique_id books id :
  unique_ids books → VStr id ∈ ids books →
  length books = S (length (filter (λ b, ¬ id_matches id b) books)).
Proof.
  unfold unique_ids, ids.
  induction books as [|b books IH]; [by intros _ ?%elem_of_nil|].
  rewrite fmap_cons, NoDup_cons, elem_of_cons. intros [Hfresh Hnd] Hin.
  rewrite filter_cons. destruct (decide (¬ id_matches id b)) as [Hno|Hyes].
  - simpl. f_equal. apply IH; [done|].
    destruct Hin as [Hhere|]; [|done].
    exfalso. by apply Hno, id_matches_spec.
  - apply dec_stable, id_matches_spec in Hyes.
    rewrite filter_absent_id; [done|]. by rewrite <- Hyes.
Qed.

Lemma delete_book_response books id :
  (delete_book books id).2
  = if bool_decide (length (filter (λ b, ¬ id_matches id b) books) < length books)%nat
    then Reply 200 (success ("Book with id " +:+ id +:+ " deleted successfully") None)
    else not_found id.
Proof. unfold delete_book. by case_bool_decide. Qed.

Lemma get_book_absent books id :
  VStr id ∉ ids books → get_book books id = (books, not_found id).
Proof.
  intros Hno%list_find_miss. unfold get_book, findBookById. by rewrite Hno.
Qed.

End create_delete.

(** ** The numbering invariant of the id policy *)

#[global] Instance numeral_inj : Inj (=) (=) numeral.
Proof. intros m n [= Heq]. by apply (inj pretty). Qed.

Section numbering.

Implicit Types (books : list book) (b old : book) (body updates : object)
  (id : string) (ns : list Z).

Lemma max_id_ge ns (k : Z) : k ∈ ns → k ≤ max_id ns.
Proof.
  unfold max_id. induction ns as [|n ns IH]; [by intros ?%elem_of_nil|].
  rewrite elem_of_cons. simpl. intros [->|Hin]; [lia|].
  specialize (IH Hin). lia.
Qed.

Lemma max_id_snoc ns (m : Z) :
  Forall (λ k, k ≤ m) ns → 0 < m → max_id (ns ++ [m]) = m.
Proof.
  unfold max_id. intros Hall Hm.
  induction Hall as [|k ns Hk _ IH]; simpl; [lia|]. rewrite IH. lia.
Qed.

Lemma numbered_seed : numbered seed [1; 2].
Proof.
  pose proof counter_limit_value.
  split; [reflexivity|]. split.
  - repeat constructor; lia.
  - repeat constructor; left; lia.
Qed.

(** Without the limit among them the numbers are pairwise distinct. *)
Lemma id_order_NoDup ns :
  StronglySorted id_order ns → counter_limit ∉ ns → NoDup ns.
Proof.
  induction 1 as [|n ns _ IH Hall]; [constructor|].
  rewrite not_elem_of_cons. intros [Hn Hns].
  constructor; [|by apply IH].
  intros Hin. rewrite Forall_forall in Hall.
  destruct (Hall n Hin) as [|[_ ?]]; [lia|done].
Qed.

(** Two positions can hold the same number only when it is the limit. *)
Lemma id_order_repeat ns (i j : nat) (n : Z) :
  StronglySorted id_order ns → i ≠ j →
  ns !! i = Some n → ns !! j = Some n → n = counter_limit.
Proof.
  assert (∀ i j, (i < j)%nat → StronglySorted id_order ns →
            ns !! i = Some n → ns !! j = Some n → n = counter_limit) as Hlt.
  { clear i j. intros i j Hij Hsorted Hi Hj.
    rewrite <- (take_drop_middle ns i n Hi) in Hsorted, Hj.
    apply StronglySorted_app in Hsorted as (_ & _ & Hsorted).
    apply StronglySorted_cons in Hsorted as [Hall _].
    assert (length (take i ns) = i) as Hlen.
    { apply length_take_le. apply lookup_lt_Some in Hi. lia. }
    rewrite lookup_app_r in Hj by lia. rewrite Hlen in Hj.
    destruct (j - i)%nat as [|k] eqn:Hk; [lia|]. simpl in Hj.
    rewrite Forall_forall in Hall.
    destruct (Hall n (list_elem_of_lookup_2 _ _ _ Hj)) as [|[_ ?]]; [lia|done]. }
  intros Hsorted Hne Hi Hj.
  destruct (decide (i < j)%nat); [by eapply Hlt|].
  eapply (Hlt j i); [lia|done..].
Qed.

Lemma numbered_unique books ns :
  numbered books ns → numeral counter_limit ∉ ids books → unique_ids books.
Proof.
  intros (Hids & _ & Hsorted) Hlimit. unfold unique_ids.
  rewrite Hids in Hlimit |- *.
  apply (NoDup_fmap_2 _). apply id_order_NoDup; [done|].
  intros Hin. by apply Hlimit, list_elem_of_fmap_2.
Qed.

(** The id handed out in a numbered collection: one more than the last
    number, which is the largest, but never past the limit. *)
Lemma numbered_generateNewId books ns :
  numbered books ns →
  ∃ n, generateNewId books = Some (pretty n)
       ∧ 0 < n ≤ counter_limit
       ∧ Forall (λ m, id_order m n) ns
       ∧ n = Z.min (max_id ns + 1) counter_limit.
Proof.
  pose proof counter_limit_value as Hlimit.
  intros (Hids & Hrange & Hsorted).
  destruct books as [|b0 books0 _] using rev_ind.
  - exists 1. destruct ns; [|done].
    split; [done|]. split; [lia|]. split; [constructor|]. unfold max_id. simpl. lia.
  - rewrite ids_app in Hids. simpl in Hids.
    destruct ns as [|m ns0 _] using rev_ind.
    { by destruct (ids books0). }
    rewrite fmap_app in Hids. apply app_inj_tail in Hids as [_ Hlast].
    apply Forall_app in Hrange as [Hrange0 Hm]. rewrite Forall_singleton in Hm.
    apply StronglySorted_app in Hsorted as (Hbefore & _ & _).
    assert (Forall (λ k, k ≤ m) ns0) as Hle.
    { apply Forall_forall. intros k Hk.
      assert (m ∈ [m]) as Hm' by by left.
      destruct (Hbefore k m Hk Hm') as [|[? _]]; lia. }
    assert (max_id (ns0 ++ [m]) = m) as Hmax by (apply max_id_snoc; [done|lia]).
    rewrite Hmax.
    destruct (decide (m = counter_limit)) as [->|Hne].
    + exists counter_limit. split; [by apply generateNewId_at_limit|].
      split; [lia|]. split; [|lia].
      apply Forall_forall. intros k Hk. unfold id_order.
      apply elem_of_app in Hk as [Hk|Hk].
      * rewrite Forall_forall in Hle. specialize (Hle k Hk). lia.
      * apply list_elem_of_singleton in Hk. lia.
    + exists (m + 1). split; [apply generateNewId_numeral; [done|lia]|].
      split; [lia|]. split; [|lia].
      apply Forall_forall. intros k Hk. left.
      apply elem_of_app in Hk as [Hk|Hk].
      * rewrite Forall_forall in Hle. specialize (Hle k Hk). lia.
      * apply list_elem_of_singleton in Hk. lia.
Qed.

(** A create with all three fields appends a record whose id is the
    next number of the counter. *)
Lemma numbered_post books ns body :
  numbered books ns → missing_field body = false →
  ∃ n,
    post_book books body
    = (books ++ [newBook (pretty n) body],
       Reply 201 (success "Book added successfully"
                          (Some (DataBook (newBook (pretty n) body)))))
    ∧ Forall (λ m, id_order m n) ns
    ∧ n = Z.min (max_id ns + 1) counter_limit
    ∧ numbered (books ++ [newBook (pretty n) body]) (ns ++ [n]).
Proof.
  intros Hnum Hbody.
  destruct (numbered_generateNewId _ _ Hnum) as (n & Hnew & Hn & Hmax & Heq).
  destruct Hnum as (Hids & Hrange & Hsorted).
  exists n. split; [by apply post_book_ok|]. split; [done|]. split; [done|].
  split; [|split].
  - rewrite ids_app, fmap_app, Hids. simpl. by rewrite get_newBook_id.
  - apply Forall_app. split; [done|]. by apply Forall_singleton.
  - apply StronglySorted_app. split; [|split; [done|repeat constructor]].
    intros k1 k2 Hk1 ->%list_elem_of_singleton.
    rewrite Forall_forall in Hmax. by apply Hmax.
Qed.

(** Filtering the records filters the numbers. *)
Lemma numbered_filter books ns (P : book → Prop) `{!∀ b, Decision (P b)} :
  numbered books ns → ∃ ns', numbered (filter P books) ns'.
Proof.
  revert ns. induction books as [|b books IH]; intros ns (Hids & Hrange & Hsorted).
  - exists []. by split_and!; [|constructor..].
  - destruct ns as [|n ns]; [done|].
    unfold ids in Hids. rewrite !fmap_cons in Hids.
    injection Hids as Hb Hids. fold (ids books) in Hids.
    apply Forall_cons in Hrange as [Hn Hrange].
    apply StronglySorted_cons in Hsorted as [Hlt Hsorted].
    destruct (IH ns) as (ns' & Hids' & Hrange' & Hsorted'); [done|].
    assert (ns' ⊆ ns) as Hsub.
    { intros k Hk.
      assert (numeral k ∈ ids (filter P books)) as Hin.
      { rewrite Hids'. by apply list_elem_of_fmap_2. }
      unfold ids in Hin. apply list_elem_of_fmap in Hin as (b' & Hb' & Hin).
      apply list_elem_of_filter in Hin as [_ Hin].
      assert (numeral k ∈ numeral <$> ns) as Hk'.
      { rewrite <- Hids, Hb'.
        by apply (list_elem_of_fmap_2 (λ b, get b "id")). }
      by apply (list_elem_of_fmap_inj_2 numeral). }
    rewrite filter_cons. destruct (decide (P b)); [|by exists ns'].
    exists (n :: ns'). split_and!.
    + unfold ids. rewrite !fmap_cons. by rewrite Hb, <- Hids'.
    + by constructor.
    + apply StronglySorted_cons. split; [|done].
      rewrite Forall_forall in Hlt |- *. auto.
Qed.

Lemma numbered_step books ns req :
  numbered books ns → keeps_id req = true →
  ∃ ns', numbered (handle books req).1 ns'.
Proof.
  intros Hnum Hkeep. destruct req as [|id|body|id body|id updates|id]; simpl.
  - exists ns. unfold get_books. by case_bool_decide.
  - exists ns. unfold get_book. by destruct (findBookById _ _).
  - destruct (missing_field body) eqn:Hbody.
    + exists ns. by rewrite post_book_missing.
    + destruct (numbered_post books ns body) as (n & -> & _ & _ & Hnum');
        [done..|]. by eexists.
  - exists ns. destruct (list_find (id_matches id) books) as [[i old]|] eqn:Hfind.
    + rewrite (put_book_hit _ _ _ i old) by done.
      destruct (missing_field body); [done|]. simpl.
      destruct Hnum as (Hids & ?). split; [|done].
      apply list_find_hit in Hfind as (Hi & _ & _).
      rewrite <- Hids. eapply ids_insert_same; [done|].
      apply get_full_update_id.
    + by rewrite put_book_miss.
  - exists ns. destruct (list_find (id_matches id) books) as [[i old]|] eqn:Hfind.
    + rewrite (patch_book_hit _ _ _ i old) by done. simpl.
      destruct Hnum as (Hids & ?). split; [|done].
      apply list_find_hit in Hfind as (Hi & Hold & _).
      rewrite <- Hids. eapply ids_insert_same; [done|].
      rewrite Hold. by apply get_spread_merge_id.
    + by rewrite patch_book_miss.
  - rewrite delete_book_state. by eapply numbered_filter.
Qed.

Lemma reachable_numbered books :
  reachable_keeping_ids books → ∃ ns, numbered books ns.
Proof.
  induction 1 as [|books req _ [ns Hnum] Hkeep].
  - exists [1; 2]. apply numbered_seed.
  - by eapply numbered_step.
Qed.

Lemma numeral_limit : numeral counter_limit = VStr "9007199254740992".
Proof. by vm_compute. Qed.

(** Neither seed id is the limit. *)
Lemma limit_not_in_seed : numeral counter_limit ∉ ids seed.
Proof.
  change (ids seed) with [numeral 1; numeral 2].
  rewrite !not_elem_of_cons. split_and!; [| |apply not_elem_of_nil].
  all: intros Heq%(inj numeral); by rewrite counter_limit_value in Heq.
Qed.

End numbering.

(** ** Verified properties of the catalog *)

Section claims.

Implicit Types (books : list book) (b old : book) (body updates : object)
  (id : string).

(** C1, as stated: the id returned is always the integer parsed from the
    last id, plus 1.  This fails where doubles run out of integers:
    after PATCH /books/2 with body [{"id": "9007199254740992"}] the
    last id parses to 2^53, and [generateNewId] returns that same id,
    not 2^53 + 1. *)
Lemma generateNewId_stops_at_limit :
  let books := (handle seed (PatchBook "2" id_to_limit)).1 in
  reachable books
  ∧ ids books = [VStr "1"; VStr "9007199254740992"]
  ∧ parseInt (VStr "9007199254740992") = Some (Int 9007199254740992)
  ∧ generateNewId books = Some "9007199254740992"
  ∧ generateNewId books ≠ Some (pretty (9007199254740992 + 1)).
Proof.
  intros books. split; [apply reachable_step, reachable_seed|].
  split; [by vm_compute|]. split; [by vm_compute|].
  assert (generateNewId books = Some "9007199254740992") as ->
    by (by vm_compute).
  split; [done|]. by vm_compute.
Qed.

(** The same arithmetic on an id that is a number: 10^21 prints as
    "1e+21", of which [parseInt] reads the 1. *)
Lemma generateNewId_exponent_form (books : list book) :
  generateNewId (books ++ [{[ "id" := VNum (10 ^ 21) ]}]) = Some "2".
Proof. rewrite generateNewId_snoc. by vm_compute. Qed.

(** C1, amended: [generateNewId] returns "1" on the empty collection;
    otherwise it parses the id of the last record in insertion order as
    an integer, adds 1 in the arithmetic of doubles and prints the sum.
    A last id that is the numeral of [n], from -2^53 up to but not
    including 2^53, gives the numeral of [n + 1], and a last id of 2^53
    gives 2^53 again.  From the seed a create with all three fields gets
    id "3"; after DELETE /books/1 the next such create gets "4": the id
    comes from the last record, not from the largest id. *)
Theorem generateNewId_last_plus_one :
  generateNewId [] = Some "1"
  ∧ (∀ books last,
       generateNewId (books ++ [last])
       = n ← parseInt (get last "id");
         Some (Number_toString (number_add n (Int 1))))
  ∧ (∀ books last (n : Z),
       get last "id" = VStr (pretty n) →
       - counter_limit ≤ n < counter_limit →
       generateNewId (books ++ [last]) = Some (pretty (n + 1)))
  ∧ (∀ books last,
       get last "id" = VStr "9007199254740992" →
       generateNewId (books ++ [last]) = Some "9007199254740992")
  ∧ (∀ body1 body2,
       missing_field body1 = false → missing_field body2 = false →
       let b1 := newBook "3" body1 in
       let b2 := newBook "4" body2 in
       let after_delete := (handle (seed ++ [b1]) (DeleteBook "1")).1 in
       handle seed (PostBook body1)
       = (seed ++ [b1],
          Reply 201 (success "Book added successfully" (Some (DataBook b1))))
       ∧ (handle (seed ++ [b1]) (DeleteBook "1")).2
         = Reply 200 (success "Book with id 1 deleted successfully" None)
       ∧ ids after_delete = [VStr "2"; VStr "3"]
       ∧ handle after_delete (PostBook body2)
         = (after_delete ++ [b2],
            Reply 201 (success "Book added successfully" (Some (DataBook b2))))).
Proof.
  pose proof counter_limit_value as Hlimit.
  split; [reflexivity|]. split; [apply generateNewId_snoc|].
  split; [apply generateNewId_numeral|].
  split; [intros books last Hid; by apply generateNewId_at_limit|].
  intros body1 body2 Hbody1 Hbody2 b1 b2 after_delete.
  assert (get b1 "id" = VStr "3") as Hb1 by apply get_newBook_id.
  assert (after_delete = drop 1 seed ++ [b1]) as Hafter.
  { unfold after_delete, handle. rewrite delete_book_state, filter_app.
    by f_equal. }
  split; [by apply post_book_ok|]. split; [|split].
  - unfold handle. rewrite delete_book_response, <- delete_book_state.
    change (delete_book (seed ++ [b1]) "1").1 with after_delete.
    by rewrite Hafter, !length_app.
  - rewrite Hafter, ids_app. simpl. by rewrite Hb1.
  - unfold handle. apply post_book_ok; [done|]. rewrite Hafter.
    apply (generateNewId_numeral _ _ 3); [done|lia].
Qed.

Lemma generateNewId_last_plus_one_witness :
  missing_field dune = false ∧ missing_field xy = false
  ∧ handle seed (PostBook dune)
    = (seed ++ [newBook "3" dune],
       Reply 201 (success "Book added successfully"
                          (Some (DataBook (newBook "3" dune)))))
  ∧ ids (run seed [PostBook dune; DeleteBook "1"]) = [VStr "2"; VStr "3"]
  ∧ (handle (run seed [PostBook dune; DeleteBook "1"]) (PostBook xy)).2
    = Reply 201 (success "Book added successfully"
                         (Some (DataBook (newBook "4" xy)))).
Proof.
  destruct generateNewId_last_plus_one as (_ & _ & _ & _ & Hscenario).
  destruct (Hscenario dune xy) as (Hpost1 & _ & Hids & Hpost2);
    [reflexivity..|].
  assert (run seed [PostBook dune; DeleteBook "1"]
          = (handle (seed ++ [newBook "3" dune]) (DeleteBook "1")).1) as ->.
  { change (run seed [PostBook dune; DeleteBook "1"])
      with (handle (handle seed (PostBook dune)).1 (DeleteBook "1")).1.
    by rewrite Hpost1. }
  split; [reflexivity|]. split; [reflexivity|]. split; [exact Hpost1|].
  split; [exact Hids|]. by rewrite Hpost2.
Defined.

(** C2, as stated: ids stay pairwise distinct in every reachable state.
    This fails: PATCH /books/2 with body [{"id": "1"}] on the seed gives
    two records with id "1". *)
Lemma patch_can_duplicate_id :
  let books := (handle seed (PatchBook "2" id_to_1)).1 in
  reachable books ∧ ids books = [VStr "1"; VStr "1"] ∧ ¬ unique_ids books.
Proof.
  intros books. split; [apply reachable_step, reachable_seed|].
  assert (ids books = [VStr "1"; VStr "1"]) as Hids by (by vm_compute).
  split; [done|]. unfold unique_ids. rewrite Hids.
  rewrite NoDup_cons. intros [Hfresh _]. apply Hfresh. by left.
Qed.

(** C2, amended: in every state reached from the seed by requests among
    which no partial update changes an id, two records at different
    positions have the same id only if that id is "9007199254740992",
    the value 2^53 at which the counter stops; so while no record has
    that id, the ids are pairwise distinct. *)
Theorem ids_unique_while_ids_kept books :
  reachable_keeping_ids books →
  (∀ (i j : nat) b1 b2,
     i ≠ j → books !! i = Some b1 → books !! j = Some b2 →
     get b1 "id" = get b2 "id" → get b1 "id" = VStr "9007199254740992")
  ∧ (VStr "9007199254740992" ∉ ids books → unique_ids books).
Proof.
  intros [ns Hnum]%reachable_numbered. split.
  - destruct Hnum as (Hids & _ & Hsorted). intros i j b1 b2 Hne Hi Hj Heq.
    assert (ids books !! i = Some (get b1 "id")) as Hi'
      by (unfold ids; by rewrite list_lookup_fmap, Hi).
    assert (ids books !! j = Some (get b1 "id")) as Hj'
      by (unfold ids; by rewrite list_lookup_fmap, Hj, Heq).
    rewrite Hids, list_lookup_fmap in Hi', Hj'.
    destruct (ns !! i) as [n|] eqn:Hni; [|done].
    destruct (ns !! j) as [m|] eqn:Hnj; [|done].
    simpl in Hi', Hj'. injection Hi' as Hi'. injection Hj' as Hj'.
    assert (m = n) as -> by (apply (inj numeral); congruence).
    rewrite <- Hi', (id_order_repeat ns i j n) by done.
    apply numeral_limit.
  - rewrite <- numeral_limit. intros Hlimit. by eapply numbered_unique.
Qed.

Lemma ids_unique_while_ids_kept_witness :
  unique_ids (handle (handle seed (PostBook dune)).1 (PatchBook "3" add_genre)).1.
Proof.
  apply ids_unique_while_ids_kept.
  - apply rk_step; [|reflexivity]. apply rk_step; [|reflexivity]. apply rk_seed.
  - assert (ids (handle (handle seed (PostBook dune)).1
                   (PatchBook "3" add_genre)).1
            = [VStr "1"; VStr "2"; VStr "3"]) as -> by (by vm_compute).
    rewrite !not_elem_of_cons. split_and!; [done..|apply not_elem_of_nil].
Defined.

(** C3, as stated: in any reachable state a create with all three fields
    gets an id that no existing record has.  This fails: after
    PATCH /books/2 with body [{"id": "0"}] the last id parses to 0, and
    the create is given "1", the id of the first record. *)
Lemma create_can_reuse_id :
  let books := (handle seed (PatchBook "2" id_to_0)).1 in
  reachable books ∧ missing_field xy = false
  ∧ ids books = [VStr "1"; VStr "0"]
  ∧ (handle books (PostBook xy)).2
    = Reply 201 (success "Book added successfully"
                         (Some (DataBook (newBook "1" xy))))
  ∧ get (newBook "1" xy) "id" ∈ ids books.
Proof.
  intros books. split; [apply reachable_step, reachable_seed|].
  split; [reflexivity|].
  assert (ids books = [VStr "1"; VStr "0"]) as Hids by (by vm_compute).
  split; [done|]. split; [by vm_compute|].
  rewrite Hids, get_newBook_id. by left.
Qed.

(** C3, amended: in every state reached from the seed by requests among
    which no partial update changes an id, a create with all three fields
    appends exactly one record and returns it; its id differs from the
    id of every record already present as long as no record has the id
    "9007199254740992", the value 2^53 at which the counter stops. *)
Theorem create_fresh_while_ids_kept books body :
  reachable_keeping_ids books → missing_field body = false →
  ∃ b,
    handle books (PostBook body)
    = (books ++ [b],
       Reply 201 (success "Book added successfully" (Some (DataBook b))))
    ∧ length (handle books (PostBook body)).1 = S (length books)
    ∧ (VStr "9007199254740992" ∉ ids books → get b "id" ∉ ids books).
Proof.
  intros [ns Hnum]%reachable_numbered Hbody.
  destruct (numbered_post books ns body) as (n & Hpost & Hmax & _ & _);
    [done..|].
  exists (newBook (pretty n) body). simpl. rewrite Hpost.
  split; [done|]. split; [simpl; rewrite length_app; simpl; lia|].
  intros Hlimit. destruct Hnum as (Hids & _). rewrite get_newBook_id.
  rewrite <- numeral_limit in Hlimit. rewrite Hids in Hlimit |- *.
  intros Hin%(list_elem_of_fmap_inj_2 numeral).
  rewrite Forall_forall in Hmax.
  destruct (Hmax n Hin) as [|[_ ->]]; [lia|].
  by apply Hlimit, (list_elem_of_fmap_2 numeral).
Qed.

Lemma create_fresh_while_ids_kept_witness :
  ∃ b,
    handle seed (PostBook dune)
    = (seed ++ [b],
       Reply 201 (success "Book added successfully" (Some (DataBook b))))
    ∧ length (handle seed (PostBook dune)).1 = S (length seed)
    ∧ (get b "id" ∉ ids seed).
Proof.
  destruct (create_fresh_while_ids_kept seed dune) as (b & Hpost & Hlen & Hfresh);
    [apply rk_seed|reflexivity|].
  exists b. split; [exact Hpost|]. split; [exact Hlen|].
  apply Hfresh. rewrite <- numeral_limit. apply limit_not_in_seed.
Defined.

(** C4, as stated: a successful full update leaves a record made of
    exactly the four fields id, title, author, year.  This fails: the
    spread keeps every field of the old record, so a field added by an
    earlier partial update is still there after the PUT. *)
Lemma put_keeps_extra_field :
  reachable with_genre
  ∧ findIndex with_genre "1" = Some 0%nat
  ∧ missing_field dune = false
  ∧ (handle with_genre (PutBook "1" dune)).2
    = Reply 200 (success "Book with id 1 updated successfully (full update)"
                         (Some (DataBook dune_with_genre)))
  ∧ (handle with_genre (PutBook "1" dune)).1 !! 0%nat = Some dune_with_genre
  ∧ dune_with_genre !! "genre" = Some (VStr "fantasy")
  ∧ dom dune_with_genre ≠ ({[ "id"; "title"; "author"; "year" ]} : gset string).
Proof.
  split; [apply reachable_step, reachable_seed|].
  split; [vm_compute; reflexivity|]. split; [reflexivity|].
  split; [vm_compute; reflexivity|]. split; [vm_compute; reflexivity|].
  assert (dune_with_genre !! "genre" = Some (VStr "fantasy")) as Hgenre
    by reflexivity.
  split; [done|]. intros Heq.
  assert ("genre" ∈ dom dune_with_genre) as Hin by (apply elem_of_dom; eauto).
  rewrite Heq, !elem_of_union, !elem_of_singleton in Hin.
  by destruct Hin as [[[|]|]|].
Qed.

(** C4, amended: for a full update on an id present in the collection, a
    falsy title, author or year leaves the collection unchanged and is
    answered 400 "fail"; otherwise the record keeps its id and every
    other field it had, and title, author and year are set to the
    submitted values, so the record consists of exactly the four fields
    whenever it had no others.  The fields are looked at only once the id
    is found: an absent id is answered 404 whatever the body. *)
Theorem put_book_full_update books id body :
  (VStr id ∉ ids books → handle books (PutBook id body) = (books, not_found id))
  ∧ (∀ i old,
       findIndex books id = Some i → books !! i = Some old →
       (missing_field body = true →
        handle books (PutBook id body) = (books, bad_update)
        ∧ is_failure bad_update)
       ∧ (missing_field body = false →
          ∃ new,
            handle books (PutBook id body)
            = (<[i := new]> books,
               Reply 200 (success ("Book with id " +:+ id
                                   +:+ " updated successfully (full update)")
                                  (Some (DataBook new))))
            ∧ get new "id" = VStr id ∧ get old "id" = VStr id
            ∧ get new "title" = get body "title"
            ∧ get new "author" = get body "author"
            ∧ get new "year" = get body "year"
            ∧ (∀ k, k ≠ "title" → k ≠ "author" → k ≠ "year" →
                    new !! k = old !! k)
            ∧ dom new = dom old ∪ {[ "title"; "author"; "year" ]}
            ∧ (dom old ⊆ {[ "id"; "title"; "author"; "year" ]} →
               dom new = {[ "id"; "title"; "author"; "year" ]}))).
Proof.
  split.
  { intros Hno%list_find_miss. by apply put_book_miss. }
  intros i old Hidx Hi. pose proof (findIndex_hit _ _ _ _ Hidx Hi) as Hfind.
  simpl. rewrite (put_book_hit _ _ _ i old) by done.
  apply list_find_hit in Hfind as (_ & Hold & _).
  split; intros ->; [done|].
  exists (full_update old body). split; [done|].
  assert (dom (full_update old body)
          = dom old ∪ ({[ "title"; "author"; "year" ]} : gset string)) as Hdom.
  { unfold full_update. rewrite !dom_insert_L. set_solver. }
  split; [by rewrite get_full_update_id|]. split; [done|].
  unfold get, full_update.
  split; [by rewrite lookup_insert_ne, lookup_insert_ne, lookup_insert_eq|].
  split; [by rewrite lookup_insert_ne, lookup_insert_eq|].
  split; [by rewrite lookup_insert_eq|].
  split; [intros; by rewrite !lookup_insert_ne|].
  split; [done|]. intros Hsub. fold (full_update old body). rewrite Hdom.
  assert ("id" ∈ dom old) as Hid.
  { apply elem_of_dom. unfold get in Hold. by destruct (old !! "id"). }
  set_solver.
Qed.

Lemma put_book_full_update_witness :
  handle seed (PutBook "2" no_year) = (seed, bad_update)
  ∧ is_failure bad_update.
Proof.
  destruct (put_book_full_update seed "2" no_year) as [_ Hfound].
  destruct (Hfound 1%nat (default ∅ (seed !! 1%nat))) as [Hbad _];
    [reflexivity..|].
  apply Hbad. reflexivity.
Defined.

(** C5. DELETE removes every record whose id equals the given one and
    keeps the others in their order.  The answer is 200 "success"
    exactly when the collection became shorter and 404 exactly when its
    length is unchanged.  When the ids are pairwise distinct and the id
    is present, the length drops by exactly one; and a GET of that id
    after the delete is answered 404. *)
Theorem delete_book_removes_matches books id :
  let books' := (handle books (DeleteBook id)).1 in
  let r := (handle books (DeleteBook id)).2 in
  let deleted :=
    Reply 200 (success ("Book with id " +:+ id +:+ " deleted successfully") None) in
  (∀ b, b ∈ books' ↔ b ∈ books ∧ get b "id" ≠ VStr id)
  ∧ books' `sublist_of` books
  ∧ (r = deleted ↔ (length books' < length books)%nat)
  ∧ (r = not_found id ↔ length books' = length books)
  ∧ (unique_ids books → VStr id ∈ ids books →
     length books = S (length books'))
  ∧ handle books' (GetBook id) = (books', not_found id).
Proof.
  intros books' r deleted.
  assert (books' = filter (λ b, ¬ id_matches id b) books) as Hstate
    by apply delete_book_state.
  assert (r = if bool_decide (length books' < length books)%nat
              then deleted else not_found id) as Hr.
  { unfold r, handle. by rewrite delete_book_response, Hstate. }
  pose proof (length_filter (λ b, ¬ id_matches id b) books) as Hle.
  rewrite <- Hstate in Hle.
  split; [|split; [|split; [|split; [|split]]]].
  - intros b. rewrite Hstate, list_elem_of_filter, id_matches_spec. tauto.
  - rewrite Hstate. apply sublist_filter.
  - rewrite Hr. case_bool_decide; [done|]. split; [discriminate|lia].
  - rewrite Hr. case_bool_decide; [|split; [lia|done]].
    split; [discriminate|lia].
  - intros Huniq Hin. rewrite Hstate. by apply filter_unique_id.
  - apply get_book_absent. rewrite Hstate. apply filter_drops_id.
Qed.

Lemma delete_book_removes_matches_witness :
  unique_ids seed ∧ VStr "1" ∈ ids seed
  ∧ length seed = S (length (handle seed (DeleteBook "1")).1).
Proof.
  assert (unique_ids seed) as Huniq
    by exact (numbered_unique _ _ numbered_seed limit_not_in_seed).
  assert (VStr "1" ∈ ids seed) as Hin by (by left).
  split; [done|]. split; [done|].
  by apply (delete_book_removes_matches seed "1").
Defined.

(** C6. GET /books on the empty collection is answered 404 "fail" with
    "No books found"; on a non-empty collection it is answered 200
    "success" with the whole collection in its current order.  That
    covers the collection emptied by deleting both seeds. *)
Theorem get_books_empty_is_failure :
  handle [] GetBooks = ([], Reply 404 (fail "No books found"))
  ∧ (∀ books, books ≠ [] →
       handle books GetBooks
       = (books, Reply 200 (success "Successfully retrieved all books"
                                    (Some (DataBooks books)))))
  ∧ handle (run seed [DeleteBook "1"; DeleteBook "2"]) GetBooks
    = ([], Reply 404 (fail "No books found")).
Proof.
  split; [reflexivity|]. split; [|reflexivity].
  intros books Hne. simpl. unfold get_books.
  rewrite bool_decide_eq_true_2; [done|].
  destruct books; [done|simpl; lia].
Qed.

Lemma get_books_empty_is_failure_witness :
  handle seed GetBooks
  = (seed, Reply 200 (success "Successfully retrieved all books"
                              (Some (DataBooks seed)))).
Proof.
  by apply get_books_empty_is_failure.
Defined.

(** C7. A request answered with a failure envelope (404 or 400) leaves
    the collection exactly as it was, on every route. *)
Theorem failure_leaves_collection books req :
  is_failure (handle books req).2 → (handle books req).1 = books.
Proof.
  destruct req as [|id|body|id body|id updates|id]; simpl.
  - unfold get_books. by case_bool_decide.
  - unfold get_book. by destruct (findBookById _ _).
  - unfold post_book. destruct (missing_field body); [done|].
    by destruct (generateNewId books).
  - unfold put_book. destruct (list_find _ _) as [[i old]|]; [|done].
    by destruct (missing_field body).
  - unfold patch_book. by destruct (list_find _ _) as [[i old]|].
  - rewrite delete_book_state, delete_book_response.
    pose proof (length_filter (λ b, ¬ id_matches id b) books).
    case_bool_decide; [done|]. intros _. apply filter_same_length. lia.
Qed.

Lemma failure_leaves_collection_witness :
  is_failure (handle seed (DeleteBook "999")).2
  ∧ (handle seed (DeleteBook "999")).1 = seed
  ∧ (handle seed (PostBook no_year)).1 = seed
  ∧ (handle seed (PutBook "1" no_year)).1 = seed
  ∧ (handle seed (PatchBook "999" add_genre)).1 = seed.
Proof.
  split; [reflexivity|].
  split; [|split; [|split]]; by apply failure_leaves_collection.
Defined.

(** C8. No operation reorders the collection.  The two GETs leave it as
    it is; a create leaves it as it is or appends one record at the end;
    a full or partial update leaves it as it is or replaces the record at
    one index in place, every other index keeping its record; a delete
    leaves a sublist, the remaining records in their former order. *)
Theorem handlers_keep_order books req :
  let books' := (handle books req).1 in
  match req with
  | GetBooks | GetBook _ => books' = books
  | PostBook _ => books' = books ∨ ∃ b, books' = books ++ [b]
  | PutBook id _ | PatchBook id _ =>
      books' = books
      ∨ ∃ i old new,
          books !! i = Some old ∧ get old "id" = VStr id
          ∧ books' = <[i := new]> books
          ∧ length books' = length books
          ∧ ∀ j, j ≠ i → books' !! j = books !! j
  | DeleteBook id =>
      books' `sublist_of` books
      ∧ books' = filter (λ b, ¬ id_matches id b) books
  end.
Proof.
  destruct req as [|id|body|id body|id updates|id]; simpl.
  - unfold get_books. by case_bool_decide.
  - unfold get_book. by destruct (findBookById _ _).
  - unfold post_book. destruct (missing_field body); [by left|].
    destruct (generateNewId books); [right; by eexists|by left].
  - destruct (list_find (id_matches id) books) as [[i old]|] eqn:Hfind.
    + rewrite (put_book_hit _ _ _ i old) by done.
      destruct (missing_field body); [by left|]. right.
      apply list_find_hit in Hfind as (Hi & Hold & _).
      exists i, old, (full_update old body). simpl.
      split; [done|]. split; [done|]. split; [done|].
      split; [apply length_insert|]. intros j Hj.
      by apply list_lookup_insert_ne.
    + rewrite put_book_miss by done. by left.
  - destruct (list_find (id_matches id) books) as [[i old]|] eqn:Hfind.
    + rewrite (patch_book_hit _ _ _ i old) by done. right.
      apply list_find_hit in Hfind as (Hi & Hold & _).
      exists i, old, (spread_merge old updates). simpl.
      split; [done|]. split; [done|]. split; [done|].
      split; [apply length_insert|]. intros j Hj.
      by apply list_lookup_insert_ne.
    + rewrite patch_book_miss by done. by left.
  - rewrite delete_book_state. split; [apply sublist_filter|done].
Qed.

Lemma handlers_keep_order_witness :
  (handle seed (DeleteBook "1")).1 `sublist_of` seed
  ∧ (handle seed (DeleteBook "1")).1 = drop 1 seed.
Proof.
  destruct (handlers_keep_order seed (DeleteBook "1")) as [Hsub Hfilter].
  split; [exact Hsub|]. rewrite Hfilter. reflexivity.
Defined.

(** C9. A partial update with the empty body on an existing id is
    answered 200 "success" with the record as it was, and the collection
    is unchanged: merging no properties is the identity. *)
Theorem patch_empty_body_is_identity books id i old :
  findIndex books id = Some i → books !! i = Some old →
  handle books (PatchBook id ∅)
  = (books,
     Reply 200 (success ("Book with id " +:+ id
                         +:+ " updated successfully (partial update)")
                        (Some (DataBook old)))).
Proof.
  intros Hidx Hi. pose proof (findIndex_hit _ _ _ _ Hidx Hi) as Hfind.
  simpl. rewrite (patch_book_hit _ _ _ i old) by done.
  by rewrite spread_merge_empty, list_insert_id.
Qed.

Lemma patch_empty_body_is_identity_witness :
  handle with_genre (PatchBook "2" ∅)
  = (with_genre,
     Reply 200 (success "Book with id 2 updated successfully (partial update)"
                        (Some (DataBook (default ∅ (with_genre !! 1%nat)))))).
Proof.
  apply (patch_empty_body_is_identity with_genre "2" 1%nat); reflexivity.
Defined.

(** C10. A successful full update keeps every field of the record other
    than title, author and year; every other record of the collection
    stays at its index, unchanged, and the length is the same.  In
    particular a field that a partial update has just added to the
    record is still there after the full update. *)
Theorem put_book_frame books id body i old :
  findIndex books id = Some i → books !! i = Some old →
  missing_field body = false →
  let books' := (handle books (PutBook id body)).1 in
  (∃ new,
     books' !! i = Some new
     ∧ (∀ k, k ≠ "title" → k ≠ "author" → k ≠ "year" → new !! k = old !! k)
     ∧ length books' = length books
     ∧ (∀ j, j ≠ i → books' !! j = books !! j))
  ∧ (∀ updates k v,
       keeps_id (PatchBook id updates) = true → updates !! k = Some v →
       k ≠ "title" → k ≠ "author" → k ≠ "year" →
       let patched := (handle books (PatchBook id updates)).1 in
       ∃ new,
         (handle patched (PutBook id body)).1 !! i = Some new
         ∧ new !! k = Some v).
Proof.
  intros Hidx Hi Hbody. pose proof (findIndex_hit _ _ _ _ Hidx Hi) as Hfind.
  pose proof (list_find_hit _ _ _ _ Hfind) as (_ & Hold & Hlt).
  simpl. split.
  - rewrite (put_book_hit _ _ _ i old), Hbody by done. simpl.
    exists (full_update old body). split; [by apply list_lookup_insert_eq|].
    split; [apply full_update_other|]. split; [apply length_insert|].
    intros j Hj. by apply list_lookup_insert_ne.
  - intros updates k v Hkeep Hk Htitle Hauthor Hyear.
    rewrite (patch_book_hit _ _ _ i old) by done. simpl.
    set (merged := spread_merge old updates).
    assert (list_find (id_matches id) (<[i := merged]> books)
            = Some (i, merged)) as Hfind'.
    { eapply list_find_insert_same_id; [done|].
      by apply get_spread_merge_id. }
    rewrite (put_book_hit _ _ _ i merged), Hbody by done. simpl.
    exists (full_update merged body).
    split; [apply list_lookup_insert_eq; by rewrite length_insert|].
    rewrite full_update_other by done.
    unfold merged, spread_merge. by rewrite lookup_union, Hk, union_Some_l.
Qed.

Lemma put_book_frame_witness :
  (∃ new,
     (handle with_genre (PutBook "1" dune)).1 !! 0%nat = Some new
     ∧ new !! "genre" = Some (VStr "fantasy")
     ∧ new !! "id" = Some (VStr "1")
     ∧ (handle with_genre (PutBook "1" dune)).1 !! 1%nat = seed !! 1%nat)
  ∧ (∃ new,
       (handle (handle seed (PatchBook "2" add_genre)).1 (PutBook "2" xy)).1
         !! 1%nat = Some new
       ∧ new !! "genre" = Some (VStr "fantasy")).
Proof.
  split.
  - destruct (put_book_frame with_genre "1" dune 0%nat
                (default ∅ (with_genre !! 0%nat)))
      as [(new & Hnew & Hkeep & _ & Hothers) _]; [reflexivity..|].
    exists new. split; [exact Hnew|].
    split; [by rewrite Hkeep|]. split; [by rewrite Hkeep|].
    by rewrite Hothers.
  - destruct (put_book_frame seed "2" xy 1%nat (default ∅ (seed !! 1%nat)))
      as [_ Hpatched]; [reflexivity..|].
    by apply Hpatched.
Defined.

End claims.

(** ** Further properties: reading, addressing and answering *)

Section routes.

Implicit Types (books : list book) (b old : book) (body updates : object)
  (id : string).

Lemma findBookById_Some books id b :
  findBookById books id = Some b ↔
  ∃ i, books !! i = Some b ∧ get b "id" = VStr id
       ∧ ∀ j b', books !! j = Some b' → (j < i)%nat → get b' "id" ≠ VStr id.
Proof.
  unfold findBookById. rewrite fmap_Some. split.
  - intros ([i b'] & Hfind & ->). simpl.
    apply list_find_Some in Hfind as (Hi & Hm & Hbefore).
    exists i. split; [done|]. split; [by apply id_matches_spec|].
    intros j b'' Hj Hlt. rewrite <- id_matches_spec. by eapply Hbefore.
  - intros (i & Hi & Hm & Hbefore). exists (i, b). split; [|done].
    apply list_find_Some. split; [done|]. split; [by apply id_matches_spec|].
    intros j b' Hj Hlt. rewrite id_matches_spec. by eapply Hbefore.
Qed.

Lemma findBookById_None books id :
  findBookById books id = None ↔ VStr id ∉ ids books.
Proof.
  unfold findBookById. rewrite fmap_None. apply list_find_miss.
Qed.

Lemma present_list_find books id :
  VStr id ∈ ids books → ∃ i old, list_find (id_matches id) books = Some (i, old).
Proof.
  intros Hin. destruct (list_find (id_matches id) books) as [[i old]|] eqn:Hfind.
  - eauto.
  - by apply list_find_miss in Hfind.
Qed.

Lemma present_or_absent books id :
  VStr id ∈ ids books ∨ VStr id ∉ ids books.
Proof.
  destruct (list_find (id_matches id) books) as [[i old]|] eqn:Hfind.
  - left. apply list_find_hit in Hfind as (Hi & Hold & _).
    rewrite <- Hold. apply (list_elem_of_fmap_2 (λ b, get b "id")).
    by eapply list_elem_of_lookup_2.
  - right. by apply list_find_miss.
Qed.

Lemma present_filter_shorter books id :
  VStr id ∈ ids books →
  (length (filter (λ b, ¬ id_matches id b) books) < length books)%nat.
Proof.
  unfold ids. intros (b & Hb & Hin)%list_elem_of_fmap.
  apply (length_filter_lt _ _ b); [done|].
  intros Hno. by apply Hno, id_matches_spec.
Qed.

Lemma delete_book_absent books id :
  VStr id ∉ ids books → delete_book books id = (books, not_found id).
Proof.
  intros Hno. apply injective_projections.
  - rewrite delete_book_state. by apply filter_absent_id.
  - rewrite delete_book_response, filter_absent_id by done.
    rewrite bool_decide_eq_false_2; [done|lia].
Qed.

Lemma delete_book_present books id :
  VStr id ∈ ids books →
  delete_book books id
  = (filter (λ b, ¬ id_matches id b) books, deleted id).
Proof.
  intros Hin%present_filter_shorter. apply injective_projections.
  - apply delete_book_state.
  - rewrite delete_book_response. by rewrite bool_decide_eq_true_2.
Qed.

(** X1. GET /books/:id never changes the collection.  It answers 200
    with a record exactly when that record is the first one, in
    insertion order, whose id is the string of the path; it answers 404
    "Book with id ... not found" exactly when no record has that id. *)
Theorem get_book_first_match books id :
  (handle books (GetBook id)).1 = books
  ∧ (∀ b, (handle books (GetBook id)).2 = retrieved id b ↔
          ∃ i, books !! i = Some b ∧ get b "id" = VStr id
               ∧ ∀ j b', books !! j = Some b' → (j < i)%nat →
                         get b' "id" ≠ VStr id)
  ∧ ((handle books (GetBook id)).2 = not_found id ↔ VStr id ∉ ids books).
Proof.
  simpl. unfold get_book.
  destruct (findBookById books id) as [b0|] eqn:Hfind; simpl.
  - split; [done|]. split.
    + intros b. rewrite <- findBookById_Some, Hfind. unfold retrieved.
      split; [by intros [= ->]|by intros [= ->]].
    + rewrite <- findBookById_None, Hfind. split; discriminate.
  - split; [done|]. split.
    + intros b. rewrite <- findBookById_Some, Hfind. split; discriminate.
    + by rewrite <- findBookById_None, Hfind.
Qed.

(** X2. The four routes /books/:id agree on which ids exist: each of
    GET, PUT, PATCH and DELETE answers 404 "Book with id ... not found"
    exactly when no record of the collection has the id of the path,
    whatever the body. *)
Theorem not_found_iff_absent books req id :
  addressed_id req = Some id →
  ((handle books req).2 = not_found id ↔ VStr id ∉ ids books).
Proof.
  intros Haddr.
  destruct (present_or_absent books id) as [Hin|Hno].
  - split; [|done]. intros Hresp. exfalso.
    destruct (present_list_find _ _ Hin) as (i & old & Hfind).
    destruct req as [|id'|body|id' body|id' updates|id'];
      simplify_eq/=.
    + unfold get_book, findBookById in Hresp. by rewrite Hfind in Hresp.
    + rewrite (put_book_hit _ _ _ i old) in Hresp by done.
      by destruct (missing_field body).
    + by rewrite (patch_book_hit _ _ _ i old) in Hresp.
    + by rewrite delete_book_present in Hresp.
  - split; [done|]. intros _.
    destruct req as [|id'|body|id' body|id' updates|id'];
      simplify_eq/=.
    + by rewrite get_book_absent.
    + rewrite put_book_miss; [done|]. by apply list_find_miss.
    + rewrite patch_book_miss; [done|]. by apply list_find_miss.
    + by rewrite delete_book_absent.
Qed.

Lemma not_found_iff_absent_witness :
  (handle seed (PutBook "999" dune)).2 = not_found "999"
  ↔ VStr "999" ∉ ids seed.
Proof. by apply not_found_iff_absent. Defined.

(** X3. After DELETE of an id, whether it was answered 200 or 404, the
    id is gone for every route: a GET, PUT, PATCH or another DELETE of
    the same id is answered 404 and leaves the collection as the first
    DELETE left it. *)
Theorem deleted_id_is_gone books req id :
  addressed_id req = Some id →
  let books' := (handle books (DeleteBook id)).1 in
  handle books' req = (books', not_found id).
Proof.
  intros Haddr. simpl. rewrite delete_book_state.
  pose proof (filter_drops_id books id) as Hno.
  destruct req as [|id'|body|id' body|id' updates|id']; simplify_eq/=.
  - by apply get_book_absent.
  - apply put_book_miss. by apply list_find_miss.
  - apply patch_book_miss. by apply list_find_miss.
  - by apply delete_book_absent.
Qed.

Lemma deleted_id_is_gone_witness :
  handle (handle seed (DeleteBook "1")).1 (DeleteBook "1")
  = ((handle seed (DeleteBook "1")).1, not_found "1").
Proof. by apply (deleted_id_is_gone seed (DeleteBook "1") "1"). Defined.

End routes.

(** ** Further properties: answers, sizes and the shape of records *)

(** Closes a goal whose hypothesis names a request of another route or
    an answer of another kind. *)
Ltac no_such_request :=
  let H := fresh in
  intros H;
  repeat match type of H with
         | ∃ _, _ => destruct H as [? H]
         | _ ∧ _ => destruct H as [? H]
         end;
  unfold created, deleted, bad_create, bad_update, not_found, success, fail in *;
  congruence.

Section answers.

Implicit Types (books : list book) (b old : book) (body updates : object)
  (id : string) (v : value).

Lemma ToBoolean_false v : ToBoolean v = false ↔ falsy v.
Proof.
  unfold falsy. destruct v as [| |[]|n|s| |]; simpl.
  all: try (split; [auto 6|done]).
  all: try (split; [done|intros [|[|[|[|]]]]; done]).
  - rewrite negb_false_iff, Z.eqb_eq. split; [intros ->; auto 6|].
    intros [|[|[|[|]]]]; congruence.
  - rewrite negb_false_iff, bool_decide_eq_true. split; [intros ->; auto 6|].
    intros [|[|[|[|]]]]; congruence.
Qed.

Lemma missing_field_true body :
  missing_field body = true ↔ ∃ k, k ∈ required_fields ∧ falsy (get body k).
Proof.
  unfold missing_field, required_fields.
  rewrite !orb_true_iff, !negb_true_iff, !ToBoolean_false. split.
  - intros [[|]|]; eexists; (split; [|done]); set_solver.
  - intros (k & Hk & Hfalsy). set_unfold. naive_solver.
Qed.

(** X4. The presence check of POST and PUT: a create is answered 400,
    and a full update of an existing id is answered 400, exactly when
    one of title, author, year is missing from the body or is null,
    false, the number 0 or the empty string.  In both cases the
    collection is unchanged. *)
Theorem rejected_iff_falsy_field books body :
  (handle books (PostBook body) = (books, bad_create) ↔
   ∃ k, k ∈ required_fields ∧ falsy (get body k))
  ∧ (∀ id, VStr id ∈ ids books →
       (handle books (PutBook id body) = (books, bad_update) ↔
        ∃ k, k ∈ required_fields ∧ falsy (get body k))).
Proof.
  split.
  - rewrite <- missing_field_true. simpl. unfold post_book. destruct (missing_field body); [done|].
    split; [|done]. by destruct (generateNewId books).
  - intros id (i & old & Hfind)%present_list_find.
    rewrite <- missing_field_true. simpl.
    rewrite (put_book_hit _ _ _ i old) by done.
    by destruct (missing_field body).
Qed.

Lemma rejected_iff_falsy_field_witness :
  handle seed (PutBook "1" {[ "title" := VStr "T"; "author" := VStr "A";
                              "year" := VNum 0 ]})
  = (seed, bad_update).
Proof.
  destruct (rejected_iff_falsy_field seed
              {[ "title" := VStr "T"; "author" := VStr "A"; "year" := VNum 0 ]})
    as [_ Hput].
  apply (Hput "1"); [by left|].
  exists "year". split; [by do 2 right; left|].
  do 3 right. by left.
Defined.

(** X5. Status, code and payload always agree.  Every JSON answer is
    either a success with code 200 or 201, or a failure with code 400 or
    404 and no data.  Code 201 is given by POST only and code 400 by
    POST and PUT only.  A success carries data on every route but
    DELETE, whose answer never carries data. *)
Theorem envelope_is_consistent books req code env :
  (handle books req).2 = Reply code env →
  (status env = "success" ∧ (code = 200 ∨ code = 201)%nat
   ∨ status env = "fail" ∧ (code = 400 ∨ code = 404)%nat ∧ data env = None)
  ∧ (code = 201%nat → ∃ body, req = PostBook body)
  ∧ (code = 400%nat → (∃ body, req = PostBook body)
                      ∨ ∃ id body, req = PutBook id body)
  ∧ match req with
    | DeleteBook _ => data env = None
    | _ => status env = "success" → is_Some (data env)
    end.
Proof.
  destruct req as [|id|body|id body|id updates|id]; simpl.
  - unfold get_books. case_bool_decide; intros [= <- <-]; simpl;
      split_and!; eauto; try done; lia.
  - unfold get_book. destruct (findBookById _ _); intros [= <- <-]; simpl;
      split_and!; eauto; try done; lia.
  - unfold post_book. destruct (missing_field body);
      [|destruct (generateNewId books); [|done]].
    all: intros [= <- <-]; simpl; split_and!; eauto; done.
  - destruct (list_find (id_matches id) books) as [[i old]|] eqn:Hfind.
    + rewrite (put_book_hit _ _ _ i old) by done.
      destruct (missing_field body); intros [= <- <-]; simpl;
        split_and!; eauto; try done; lia.
    + rewrite put_book_miss by done. intros [= <- <-]; simpl;
        split_and!; eauto; try done; lia.
  - destruct (list_find (id_matches id) books) as [[i old]|] eqn:Hfind.
    + rewrite (patch_book_hit _ _ _ i old) by done.
      intros [= <- <-]; simpl; split_and!; eauto; try done; lia.
    + rewrite patch_book_miss by done. intros [= <- <-]; simpl;
        split_and!; eauto; try done; lia.
  - rewrite delete_book_response. case_bool_decide; intros [= <- <-]; simpl;
      split_and!; eauto; try done; lia.
Qed.

Lemma envelope_is_consistent_witness :
  ∃ body, PostBook dune = PostBook body.
Proof.
  destruct (envelope_is_consistent seed (PostBook dune) 201
              (success "Book added successfully"
                       (Some (DataBook (newBook "3" dune)))))
    as (_ & Hpost & _); [reflexivity|].
  by apply Hpost.
Defined.

(** X6. Only a create that is answered 201 makes the collection longer,
    and it adds exactly one record; only a DELETE that is answered 200
    makes it shorter; every other request keeps the length. *)
Theorem length_changes_only_by_create_and_delete books req :
  let books' := (handle books req).1 in
  let r := (handle books req).2 in
  (length books' ≤ S (length books))%nat
  ∧ ((length books < length books')%nat ↔
     ∃ body b, req = PostBook body ∧ r = created b ∧ books' = books ++ [b])
  ∧ ((length books' < length books)%nat ↔
     ∃ id, req = DeleteBook id ∧ r = deleted id).
Proof.
  assert (∀ n, ¬ (n < n)%nat) as Hirrefl by lia.
  destruct req as [|id|body|id body|id updates|id]; simpl.
  - unfold get_books. case_bool_decide; simpl.
    all: split; [lia|split; (split; [by intros ?%Hirrefl|no_such_request])].
  - unfold get_book. destruct (findBookById _ _); simpl.
    all: split; [lia|split; (split; [by intros ?%Hirrefl|no_such_request])].
  - unfold post_book. destruct (missing_field body);
      [|destruct (generateNewId books) as [new_id|]]; simpl.
    + split; [lia|split; (split; [by intros ?%Hirrefl|no_such_request])].
    + rewrite length_app. simpl. split; [lia|]. split.
      * split; [intros _; by eexists _, _|lia].
      * split; [lia|no_such_request].
    + split; [lia|split; (split; [by intros ?%Hirrefl|no_such_request])].
  - destruct (list_find (id_matches id) books) as [[i old]|] eqn:Hfind.
    + rewrite (put_book_hit _ _ _ i old) by done.
      destruct (missing_field body); simpl; rewrite ?length_insert.
      all: split; [lia|split; (split; [by intros ?%Hirrefl|no_such_request])].
    + rewrite put_book_miss by done. simpl.
      split; [lia|split; (split; [by intros ?%Hirrefl|no_such_request])].
  - destruct (list_find (id_matches id) books) as [[i old]|] eqn:Hfind.
    + rewrite (patch_book_hit _ _ _ i old) by done.
      simpl; rewrite ?length_insert.
      split; [lia|split; (split; [by intros ?%Hirrefl|no_such_request])].
    + rewrite patch_book_miss by done. simpl.
      split; [lia|split; (split; [by intros ?%Hirrefl|no_such_request])].
  - rewrite delete_book_state, delete_book_response.
    pose proof (length_filter (λ b, ¬ id_matches id b) books).
    split; [lia|]. split; [split; [lia|no_such_request]|].
    case_bool_decide; split.
    + intros _. by exists id.
    + done.
    + lia.
    + no_such_request.
Qed.

Lemma length_changes_only_by_create_and_delete_witness :
  ∃ body b,
    PostBook dune = PostBook body
    ∧ (handle seed (PostBook dune)).2 = created b
    ∧ (handle seed (PostBook dune)).1 = seed ++ [b].
Proof.
  apply (length_changes_only_by_create_and_delete seed (PostBook dune)).
  vm_compute. reflexivity.
Defined.

(** How a request changes the array: not at all, by one record at the
    end, by one record replaced by another with at least its fields, or
    by dropping records. *)
Lemma handlers_keep_order_shape books req :
  (handle books req).1 = books
  ∨ (∃ b body new_id,
       b = newBook new_id body ∧ (handle books req).1 = books ++ [b])
  ∨ (∃ i old new,
       books !! i = Some old ∧ dom old ⊆ dom new
       ∧ (handle books req).1 = <[i := new]> books)
  ∨ (handle books req).1 `sublist_of` books.
Proof.
  destruct req as [|id|body|id body|id updates|id]; simpl.
  - left. unfold get_books. by case_bool_decide.
  - left. unfold get_book. by destruct (findBookById _ _).
  - unfold post_book. destruct (missing_field body); [by left|].
    destruct (generateNewId books) as [new_id|]; [|by left].
    right. left. by eexists _, body, new_id.
  - destruct (list_find (id_matches id) books) as [[i old]|] eqn:Hfind.
    + rewrite (put_book_hit _ _ _ i old) by done.
      destruct (missing_field body); [by left|]. do 2 right. left.
      apply list_find_hit in Hfind as (Hi & _ & _).
      exists i, old, (full_update old body). split; [done|]. split; [|done].
      unfold full_update. rewrite !dom_insert_L. set_solver.
    + rewrite put_book_miss by done. by left.
  - destruct (list_find (id_matches id) books) as [[i old]|] eqn:Hfind.
    + rewrite (patch_book_hit _ _ _ i old) by done. do 2 right. left.
      apply list_find_hit in Hfind as (Hi & _ & _).
      exists i, old, (spread_merge old updates). split; [done|]. split; [|done].
      unfold spread_merge. rewrite dom_union_L. set_solver.
    + rewrite patch_book_miss by done. by left.
  - do 3 right. rewrite delete_book_state. apply sublist_filter.
Qed.

(** X7. No operation removes a field.  In every reachable state, also
    after partial updates of any shape, every record of the collection
    has the four properties id, title, author and year. *)
Theorem records_keep_base_fields books b :
  reachable books → b ∈ books → base_fields ⊆ dom b.
Proof.
  unfold base_fields. intros Hreach. revert b.
  induction Hreach as [|books req _ IH]; intros b Hb.
  { unfold seed in Hb. set_unfold in Hb.
    destruct Hb as [->|[->|[]]]; rewrite !dom_insert_L; set_solver. }
  pose proof (handlers_keep_order_shape books req) as Hshape.
  destruct Hshape as [Heq|[(b0 & body & new_id & Hb0 & Heq)|
                           [(i & old & new & Hi & Hdom & Heq)|Hsub]]].
  - rewrite Heq in Hb. by apply IH.
  - rewrite Heq in Hb. apply elem_of_app in Hb as [Hb|Hb]; [by apply IH|].
    apply list_elem_of_singleton in Hb as ->. rewrite Hb0.
    unfold newBook. rewrite !dom_insert_L. set_solver.
  - rewrite Heq in Hb. apply list_elem_of_lookup in Hb as (j & Hj).
    destruct (decide (j = i)) as [->|Hne].
    + assert (i < length books)%nat by by eapply lookup_lt_Some.
      rewrite list_lookup_insert_eq in Hj by done. simplify_eq.
      specialize (IH old (list_elem_of_lookup_2 _ _ _ Hi)). set_solver.
    + rewrite list_lookup_insert_ne in Hj by done.
      apply IH. by eapply list_elem_of_lookup_2.
  - apply IH. by eapply elem_of_sublist.
Qed.

Lemma records_keep_base_fields_witness :
  base_fields ⊆ dom dune_with_genre.
Proof.
  apply (records_keep_base_fields
           (handle with_genre (PutBook "1" dune)).1 dune_with_genre).
  - apply reachable_step, reachable_step, reachable_seed.
  - apply list_elem_of_lookup. exists 0%nat. vm_compute. reflexivity.
Defined.

End answers.

(** ** Further properties: how the operations compose *)

Section composition.

Implicit Types (books : list book) (b old : book) (body updates : object)
  (id : string) (ns : list Z).

(** A create with all three fields in a state reached without moving
    ids: the id is new unless the counter has reached its limit. *)
Lemma post_book_fresh books body :
  reachable_keeping_ids books → missing_field body = false →
  ∃ new_id,
    post_book books body
    = (books ++ [newBook new_id body], created (newBook new_id body))
    ∧ generateNewId books = Some new_id
    ∧ (VStr "9007199254740992" ∉ ids books → VStr new_id ∉ ids books).
Proof.
  intros [ns Hnum]%reachable_numbered Hbody.
  destruct (numbered_generateNewId _ _ Hnum) as (n & Hnew & _ & Hmax & _).
  exists (pretty n). split; [by apply post_book_ok|]. split; [done|].
  rewrite <- numeral_limit. destruct Hnum as (Hids & _). rewrite Hids.
  intros Hlimit Hin%(list_elem_of_fmap_inj_2 numeral).
  rewrite Forall_forall in Hmax.
  destruct (Hmax n Hin) as [|[_ ->]]; [lia|].
  by apply Hlimit, (list_elem_of_fmap_2 numeral).
Qed.

Lemma findBookById_snoc_fresh books b id :
  VStr id ∉ ids books → get b "id" = VStr id →
  findBookById (books ++ [b]) id = Some b.
Proof.
  intros Hfresh Hb. apply findBookById_Some. exists (length books).
  split; [by rewrite lookup_app_r, Nat.sub_diag by lia|]. split; [done|].
  intros j b' Hj Hlt Hb'. rewrite lookup_app_l in Hj by done.
  apply Hfresh. rewrite <- Hb'.
  apply (list_elem_of_fmap_2 (λ b, get b "id")). by eapply list_elem_of_lookup_2.
Qed.

Lemma get_book_hit books id b :
  findBookById books id = Some b → get_book books id = (books, retrieved id b).
Proof. unfold get_book. by intros ->. Qed.

Lemma full_update_idemp old body :
  full_update (full_update old body) body = full_update old body.
Proof.
  unfold full_update. apply map_eq. intros k. rewrite !lookup_insert.
  by repeat case_decide.
Qed.

Lemma get_full_update_fields old body :
  get (full_update old body) "title" = get body "title"
  ∧ get (full_update old body) "author" = get body "author"
  ∧ get (full_update old body) "year" = get body "year".
Proof.
  unfold get, full_update. split; [|split].
  - by rewrite lookup_insert_ne, lookup_insert_ne, lookup_insert_eq.
  - by rewrite lookup_insert_ne, lookup_insert_eq.
  - by rewrite lookup_insert_eq.
Qed.

Lemma findBookById_list_find books id b :
  findBookById books id = Some b →
  ∃ i, list_find (id_matches id) books = Some (i, b).
Proof.
  unfold findBookById. intros ([i b'] & Hfind & ->)%fmap_Some. by exists i.
Qed.

Lemma list_find_findBookById books id i b :
  list_find (id_matches id) books = Some (i, b) → findBookById books id = Some b.
Proof. unfold findBookById. by intros ->. Qed.

(** X8. Read after create.  In a state reached without a partial update
    that moves an id, and in which no record has the id
    "9007199254740992" at which the counter stops, a create with all
    three fields returns a record that carries the submitted title,
    author and year, and a GET of the id it was given returns that same
    record. *)
Theorem created_book_is_retrievable books body :
  reachable_keeping_ids books → VStr "9007199254740992" ∉ ids books →
  missing_field body = false →
  ∃ new_id b,
    handle books (PostBook body) = (books ++ [b], created b)
    ∧ get b "id" = VStr new_id
    ∧ get b "title" = get body "title"
    ∧ get b "author" = get body "author"
    ∧ get b "year" = get body "year"
    ∧ handle (books ++ [b]) (GetBook new_id) = (books ++ [b], retrieved new_id b).
Proof.
  intros Hreach Hlimit Hbody.
  destruct (post_book_fresh books body) as (new_id & Hpost & _ & Hfresh);
    [done..|].
  exists new_id, (newBook new_id body). split; [done|].
  split; [apply get_newBook_id|].
  unfold get at 1 3 5, newBook.
  split; [by rewrite lookup_insert_ne, lookup_insert_eq|].
  split; [by rewrite lookup_insert_ne, lookup_insert_ne, lookup_insert_eq|].
  split; [by rewrite !lookup_insert_ne, lookup_singleton_eq|].
  apply get_book_hit, findBookById_snoc_fresh; [by apply Hfresh|].
  apply get_newBook_id.
Qed.

Lemma created_book_is_retrievable_witness :
  ∃ new_id b,
    handle seed (PostBook dune) = (seed ++ [b], created b)
    ∧ get b "id" = VStr new_id
    ∧ get b "title" = get dune "title"
    ∧ get b "author" = get dune "author"
    ∧ get b "year" = get dune "year"
    ∧ handle (seed ++ [b]) (GetBook new_id) = (seed ++ [b], retrieved new_id b).
Proof.
  apply created_book_is_retrievable; [apply rk_seed| |reflexivity].
  rewrite <- numeral_limit. apply limit_not_in_seed.
Defined.

(** X9. Create then delete is a round trip, and the id is handed out
    again.  In a state reached without a partial update that moves an
    id, and in which no record has the id "9007199254740992" at which
    the counter stops, deleting the record a create has just added is
    answered 200 and restores the collection exactly; the next create
    then gets the same id once more. *)
Theorem create_then_delete_restores books body :
  reachable_keeping_ids books → VStr "9007199254740992" ∉ ids books →
  missing_field body = false →
  ∃ new_id,
    handle books (PostBook body)
    = (books ++ [newBook new_id body], created (newBook new_id body))
    ∧ handle (books ++ [newBook new_id body]) (DeleteBook new_id)
      = (books, deleted new_id)
    ∧ ∀ body', missing_field body' = false →
        handle books (PostBook body')
        = (books ++ [newBook new_id body'], created (newBook new_id body')).
Proof.
  intros Hreach Hlimit Hbody.
  destruct (post_book_fresh books body) as (new_id & Hpost & Hnew & Hfresh);
    [done..|].
  specialize (Hfresh Hlimit).
  exists new_id. split; [done|]. split.
  - simpl. rewrite delete_book_present.
    + f_equal. rewrite filter_app, filter_absent_id by done.
      rewrite filter_cons, decide_False, filter_nil; [by rewrite (right_id [] _)|].
      intros Hno. apply Hno, id_matches_spec, get_newBook_id.
    + rewrite ids_app. apply elem_of_app. right. simpl.
      rewrite get_newBook_id. by left.
  - intros body' Hbody'. by apply post_book_ok.
Qed.

Lemma create_then_delete_restores_witness :
  ∃ new_id,
    handle seed (PostBook dune)
    = (seed ++ [newBook new_id dune], created (newBook new_id dune))
    ∧ handle (seed ++ [newBook new_id dune]) (DeleteBook new_id)
      = (seed, deleted new_id)
    ∧ ∀ body', missing_field body' = false →
        handle seed (PostBook body')
        = (seed ++ [newBook new_id body'], created (newBook new_id body')).
Proof.
  apply create_then_delete_restores; [apply rk_seed| |reflexivity].
  rewrite <- numeral_limit. apply limit_not_in_seed.
Defined.

(** X10. PUT is idempotent in every state: sending the same full update
    twice leaves the collection, and gives the answer, of sending it
    once. *)
Theorem put_book_idempotent books id body :
  handle (handle books (PutBook id body)).1 (PutBook id body)
  = handle books (PutBook id body).
Proof.
  simpl. destruct (list_find (id_matches id) books) as [[i old]|] eqn:Hfind.
  - rewrite (put_book_hit books id body i old) by done.
    destruct (missing_field body) eqn:Hbody; simpl.
    + by rewrite (put_book_hit books id body i old), Hbody.
    + assert (list_find (id_matches id) (<[i := full_update old body]> books)
              = Some (i, full_update old body)) as Hfind'.
      { eapply list_find_insert_same_id; [done|].
        rewrite get_full_update_id. by apply list_find_hit in Hfind as (_ & ? & _). }
      rewrite (put_book_hit _ _ _ i (full_update old body)), Hbody by done.
      by rewrite full_update_idemp, list_insert_insert_eq.
  - rewrite (put_book_miss books) by done. simpl. by rewrite put_book_miss.
Qed.

(** X11. Partial updates compose.  When the first body does not move the
    id, two partial updates of the same id in a row have the effect and
    the answer of one partial update with the merged body, in which the
    second body wins; in particular sending the same partial update
    twice is the same as sending it once. *)
Theorem patch_book_composes books id updates1 updates2 :
  keeps_id (PatchBook id updates1) = true →
  handle (handle books (PatchBook id updates1)).1 (PatchBook id updates2)
  = handle books (PatchBook id (updates2 ∪ updates1))
  ∧ handle (handle books (PatchBook id updates1)).1 (PatchBook id updates1)
    = handle books (PatchBook id updates1).
Proof.
  intros Hkeep.
  assert (∀ updates,
            handle (handle books (PatchBook id updates1)).1 (PatchBook id updates)
            = handle books (PatchBook id (updates ∪ updates1))) as Hcompose.
  { intros updates. simpl.
    destruct (list_find (id_matches id) books) as [[i old]|] eqn:Hfind.
    - rewrite !(patch_book_hit books _ _ i old) by done. simpl.
      assert (list_find (id_matches id) (<[i := spread_merge old updates1]> books)
              = Some (i, spread_merge old updates1)) as Hfind'.
      { eapply list_find_insert_same_id; [done|].
        apply get_spread_merge_id; [|done].
        by apply list_find_hit in Hfind as (_ & ? & _). }
      rewrite (patch_book_hit _ _ _ i (spread_merge old updates1)) by done.
      unfold spread_merge.
      by rewrite list_insert_insert_eq, (assoc_L (∪)).
    - by rewrite !(patch_book_miss books) by done. }
  split; [apply Hcompose|].
  by rewrite Hcompose, (idemp_L (∪)).
Qed.

Lemma patch_book_composes_witness :
  handle (handle seed (PatchBook "1" add_genre)).1 (PatchBook "1" dune)
  = handle seed (PatchBook "1" (dune ∪ add_genre)).
Proof.
  by apply (patch_book_composes seed "1" add_genre dune).
Defined.

(** X12. Read after full update.  After a PUT with all three fields on
    an id that exists, a GET of that id returns a record with that id
    and with the submitted title, author and year. *)
Theorem updated_book_is_retrievable books id body :
  VStr id ∈ ids books → missing_field body = false →
  let books' := (handle books (PutBook id body)).1 in
  ∃ new,
    handle books' (GetBook id) = (books', retrieved id new)
    ∧ get new "id" = VStr id
    ∧ get new "title" = get body "title"
    ∧ get new "author" = get body "author"
    ∧ get new "year" = get body "year".
Proof.
  intros (i & old & Hfind)%present_list_find Hbody. simpl.
  rewrite (put_book_hit _ _ _ i old), Hbody by done. simpl.
  pose proof (list_find_hit _ _ _ _ Hfind) as (_ & Hold & _).
  exists (full_update old body).
  split; [|split; [by rewrite get_full_update_id|apply get_full_update_fields]].
  apply get_book_hit. apply (list_find_findBookById _ _ i).
  eapply list_find_insert_same_id; [done|]. by rewrite get_full_update_id.
Qed.

Lemma updated_book_is_retrievable_witness :
  ∃ new,
    handle (handle seed (PutBook "2" dune)).1 (GetBook "2")
    = ((handle seed (PutBook "2" dune)).1, retrieved "2" new)
    ∧ get new "id" = VStr "2"
    ∧ get new "title" = get dune "title"
    ∧ get new "author" = get dune "author"
    ∧ get new "year" = get dune "year".
Proof.
  apply (updated_book_is_retrievable seed "2" dune); [|reflexivity].
  right. by left.
Defined.

(** X13. Read after partial update.  After a PATCH that does not move
    the id, a GET of that id returns the merged record: every property
    of the body reads as the body gave it, every other property as the
    record had it before. *)
Theorem patched_book_is_retrievable books id updates old :
  findBookById books id = Some old →
  keeps_id (PatchBook id updates) = true →
  let books' := (handle books (PatchBook id updates)).1 in
  ∃ new,
    handle books' (GetBook id) = (books', retrieved id new)
    ∧ ∀ k, new !! k = match updates !! k with
                      | Some v => Some v
                      | None => old !! k
                      end.
Proof.
  intros (i & Hfind)%findBookById_list_find Hkeep. simpl.
  rewrite (patch_book_hit _ _ _ i old) by done. simpl.
  pose proof (list_find_hit _ _ _ _ Hfind) as (_ & Hold & _).
  exists (spread_merge old updates). split.
  - apply get_book_hit. apply (list_find_findBookById _ _ i).
    eapply list_find_insert_same_id; [done|]. by apply get_spread_merge_id.
  - intros k. unfold spread_merge. rewrite lookup_union.
    destruct (updates !! k); [by rewrite union_Some_l|by rewrite (left_id None _)].
Qed.

Lemma patched_book_is_retrievable_witness :
  ∃ new,
    handle with_genre (GetBook "1") = (with_genre, retrieved "1" new)
    ∧ new !! "genre" = Some (VStr "fantasy")
    ∧ new !! "title" = Some (VStr "The Lord of the Rings").
Proof.
  destruct (patched_book_is_retrievable seed "1" add_genre
              (default ∅ (seed !! 0%nat)))
    as (new & Hget & Hnew); [reflexivity..|].
  exists new. split; [exact Hget|]. by rewrite !Hnew.
Defined.

End composition.

(** ** Further properties: the id policy and its edges *)

Section id_policy.

Implicit Types (books : list book) (b old last : book) (body updates : object)
  (id : string) (ns : list Z).

(** X14. While no partial update moves an id, the collection is sorted
    by id: the ids are the decimal numerals of positive integers up to
    2^53, strictly increasing below 2^53, and the id handed out next is
    one more than the largest of them (1 when there is none), except
    that it never goes past 2^53.  Below that limit the last-record
    policy coincides with max + 1. *)
Theorem ids_increase_while_ids_kept books :
  reachable_keeping_ids books →
  ∃ ns,
    ids books = numeral <$> ns
    ∧ Forall (λ n, 0 < n ≤ counter_limit) ns
    ∧ StronglySorted id_order ns
    ∧ generateNewId books
      = Some (pretty (Z.min (max_id ns + 1) counter_limit)).
Proof.
  intros [ns Hnum]%reachable_numbered. exists ns.
  destruct (numbered_generateNewId _ _ Hnum) as (n & Hnew & _ & _ & ->).
  by destruct Hnum as (? & ? & ?).
Qed.

Lemma ids_increase_while_ids_kept_witness :
  ∃ ns,
    ids (run seed [PostBook dune; DeleteBook "1"]) = numeral <$> ns
    ∧ Forall (λ n, 0 < n ≤ counter_limit) ns
    ∧ StronglySorted id_order ns
    ∧ generateNewId (run seed [PostBook dune; DeleteBook "1"])
      = Some (pretty (Z.min (max_id ns + 1) counter_limit)).
Proof.
  apply ids_increase_while_ids_kept.
  apply (rk_step _ (DeleteBook "1")); [|reflexivity].
  apply (rk_step _ (PostBook dune)); [|reflexivity]. apply rk_seed.
Defined.

(** X15. An id that does not parse poisons the counter.  When the id of
    the last record does not start with an integer, so that [parseInt]
    gives NaN, the next create is given the id "NaN", and so is every
    create after it: two creates in a row leave two records with the
    same id. *)
Theorem unparsable_last_id_sticks books last body1 body2 :
  parseInt (get last "id") = Some NaN →
  missing_field body1 = false → missing_field body2 = false →
  run (books ++ [last]) [PostBook body1; PostBook body2]
  = books ++ [last; newBook "NaN" body1; newBook "NaN" body2]
  ∧ ¬ unique_ids (run (books ++ [last]) [PostBook body1; PostBook body2]).
Proof.
  intros Hnan Hbody1 Hbody2.
  assert (run (books ++ [last]) [PostBook body1; PostBook body2]
          = books ++ [last; newBook "NaN" body1; newBook "NaN" body2]) as ->.
  { unfold run. simpl.
    rewrite (post_book_ok (books ++ [last]) body1 "NaN"); [|done|].
    2: { by rewrite generateNewId_snoc, Hnan. }
    simpl.
    rewrite (post_book_ok ((books ++ [last]) ++ [newBook "NaN" body1])
               body2 "NaN"); [|done|].
    2: { by rewrite generateNewId_snoc, get_newBook_id. }
    simpl. by rewrite <- !(assoc_L (++)). }
  split; [done|]. unfold unique_ids. rewrite ids_app, NoDup_app.
  intros (_ & _ & Hnd). simpl in Hnd. rewrite !get_newBook_id in Hnd.
  apply NoDup_cons in Hnd as [_ Hnd]. apply NoDup_cons in Hnd as [Hnd _].
  apply Hnd. by left.
Qed.

Lemma unparsable_last_id_sticks_witness :
  ids (run (run seed [PatchBook "2" {[ "id" := VStr "two" ]}])
           [PostBook dune; PostBook xy])
  = [VStr "1"; VStr "two"; VStr "NaN"; VStr "NaN"].
Proof.
  destruct (unparsable_last_id_sticks
              (take 1 seed)
              ({[ "id" := VStr "two" ]} ∪ default ∅ (seed !! 1%nat))
              dune xy) as [Hrun _]; [reflexivity..|].
  change (run seed [PatchBook "2" {[ "id" := VStr "two" ]}])
    with (take 1 seed
          ++ [{[ "id" := VStr "two" ]} ∪ default ∅ (seed !! 1%nat)]).
  rewrite Hrun. reflexivity.
Defined.

(** X17. Ids are stable under updates.  A full update never changes the
    sequence of ids of the collection, whatever its body; a partial
    update leaves it unchanged whenever its body has no "id" or repeats
    the id of the path. *)
Theorem updates_keep_ids books id body updates :
  ids (handle books (PutBook id body)).1 = ids books
  ∧ (keeps_id (PatchBook id updates) = true →
     ids (handle books (PatchBook id updates)).1 = ids books).
Proof.
  simpl. destruct (list_find (id_matches id) books) as [[i old]|] eqn:Hfind.
  - rewrite (put_book_hit _ _ _ i old), (patch_book_hit _ _ _ i old) by done.
    apply list_find_hit in Hfind as (Hi & Hold & _). split.
    + destruct (missing_field body); [done|]. simpl.
      eapply ids_insert_same; [done|]. apply get_full_update_id.
    + intros Hkeep. simpl. eapply ids_insert_same; [done|].
      rewrite Hold. by apply get_spread_merge_id.
  - by rewrite put_book_miss, patch_book_miss.
Qed.

Lemma updates_keep_ids_witness :
  ids (handle seed (PatchBook "2" add_genre)).1 = ids seed.
Proof. by apply (updates_keep_ids seed "2" dune add_genre). Defined.

End id_policy.

(** ** Further properties: what a request leaves alone *)

Section frame.

Implicit Types (books : list book) (b old : book) (body updates : object)
  (id : string).

Lemma handle_keeps_other_records books req b :
  b ∈ books →
  (∀ id, addressed_id req = Some id → get b "id" ≠ VStr id) →
  b ∈ (handle books req).1.
Proof.
  intros Hin Hother.
  assert (∀ id i old new,
            addressed_id req = Some id →
            list_find (id_matches id) books = Some (i, old) →
            b ∈ <[i := new]> books) as Hinsert.
  { intros id i old new Haddr (Hi & Hold & _)%list_find_hit.
    apply list_elem_of_lookup in Hin as (j & Hj).
    apply list_elem_of_lookup. exists j.
    rewrite list_lookup_insert_ne; [done|].
    intros ->. simplify_eq. by apply (Hother id). }
  destruct req as [|id|body|id body|id updates|id]; simpl.
  - unfold get_books. by case_bool_decide.
  - unfold get_book. by destruct (findBookById _ _).
  - unfold post_book. destruct (missing_field body); [done|].
    destruct (generateNewId books); [|done]. simpl.
    apply elem_of_app. by left.
  - destruct (list_find (id_matches id) books) as [[i old]|] eqn:Hfind.
    + rewrite (put_book_hit _ _ _ i old) by done.
      destruct (missing_field body); [done|]. simpl. by eapply Hinsert.
    + by rewrite put_book_miss.
  - destruct (list_find (id_matches id) books) as [[i old]|] eqn:Hfind.
    + rewrite (patch_book_hit _ _ _ i old) by done. simpl. by eapply Hinsert.
    + by rewrite patch_book_miss.
  - rewrite delete_book_state. apply list_elem_of_filter. split; [|done].
    rewrite id_matches_spec. by apply Hother.
Qed.

(** X18. A request touches only the records it addresses.  Whatever the
    request, a record whose id is not the string in the path of the
    request is still in the collection, unchanged, afterwards; the list
    and create routes address no record at all. *)
Theorem other_records_are_kept books req b :
  b ∈ books →
  (∀ id, addressed_id req = Some id → get b "id" ≠ VStr id) →
  b ∈ (handle books req).1.
Proof. apply handle_keeps_other_records. Qed.

Lemma other_records_are_kept_witness :
  default ∅ (seed !! 1%nat) ∈ (handle seed (DeleteBook "1")).1.
Proof.
  apply other_records_are_kept.
  - right. by left.
  - intros id [= <-]. discriminate.
Defined.

(** X19. A record whose id is not a string can no longer be reached.
    Once a partial update has overwritten an id with a number, null or
    any other non-string value, no sequence of requests updates or
    deletes that record: the routes compare the id with the string of
    the path by [===], which no such value satisfies. *)
Theorem non_string_id_is_permanent books (reqs : list request) b :
  b ∈ books → (∀ s, get b "id" ≠ VStr s) → b ∈ run books reqs.
Proof.
  intros Hin Hid. unfold run. revert books Hin.
  induction reqs as [|req reqs IH]; intros books Hin; [done|].
  simpl. apply IH. apply handle_keeps_other_records; [done|].
  intros id _. apply Hid.
Qed.

Lemma non_string_id_is_permanent_witness :
  {[ "id" := VNum 2 ]} ∪ default ∅ (seed !! 1%nat)
  ∈ run (run seed [PatchBook "2" {[ "id" := VNum 2 ]}])
        [DeleteBook "2"; PutBook "2" dune; PatchBook "2" add_genre].
Proof.
  apply non_string_id_is_permanent.
  - right. left.
  - intros s. vm_compute. discriminate.
Defined.

End frame.
